(** * Podcast-AI front end: job lifecycle client and waveform render loop

    A shallow embedding of the two React components of the front end,

    - [Index] (the page component: submission handler, polling effect,
      play/download controls), and
    - [WaveformVisualizer] (the 64-bar animation driven by [setInterval]),

    together with the fragment of the JavaScript run time they rely on:
    property lookup on object literals, [String.prototype.trim], timers
    and the way React runs and tears down effects.

    Conventions.  JavaScript numbers are idealised as rationals ([Q]);
    rounding of IEEE doubles is outside the model.  Timers run on a
    virtual clock that advances one millisecond at a time.  Network
    replies, user actions and the passing of time are events fed to a
    total, executable step function. *)

From Stdlib Require Import ZArith NArith QArith Lia.
From stdpp Require Import base list gmap strings.

Local Open Scope string_scope.

(* ===================================================================== *)
(** ** JavaScript run-time fragments                                      *)
(* ===================================================================== *)

Module JS.

(** Text typed by the user is kept as a sequence of UTF-16 code units,
    the way a JavaScript string stores it. *)
Definition utf16 := list N.

(** [WhiteSpace] and [LineTerminator] code points of ECMAScript, the
    ones [String.prototype.trim] strips.  All of them are in the basic
    plane, so they are single code units. *)
Definition isWhiteSpace (c : N) : bool :=
  ((9 <=? c) && (c <=? 13)            (* TAB LF VT FF CR *)
   || (c =? 32)                         (* SPACE *)
   || (c =? 160)                        (* NO-BREAK SPACE *)
   || (c =? 5760)                       (* U+1680 *)
   || ((8192 <=? c) && (c <=? 8202))    (* U+2000 .. U+200A *)
   || (c =? 8232) || (c =? 8233)        (* U+2028 U+2029 *)
   || (c =? 8239) || (c =? 8287)        (* U+202F U+205F *)
   || (c =? 12288)                      (* U+3000 *)
   || (c =? 65279))%N.                  (* U+FEFF *)

Fixpoint trimStart (s : utf16) : utf16 :=
  match s with
  | c :: rest => if isWhiteSpace c then trimStart rest else s
  | [] => []
  end.

Definition trimEnd (s : utf16) : utf16 := rev (trimStart (rev s)).

Definition trim (s : utf16) : utf16 := trimEnd (trimStart s).

(** Truthiness of a string: only the empty string is falsy. *)
Definition truthy_utf16 (s : utf16) : bool :=
  match s with [] => false | _ :: _ => true end.

Definition truthy_string (s : string) : bool :=
  match s with EmptyString => false | String _ _ => true end.

(** Names every ordinary object inherits from [Object.prototype]. *)
Definition ObjectPrototype : list string :=
  [ "constructor"; "hasOwnProperty"; "isPrototypeOf";
    "propertyIsEnumerable"; "toLocaleString"; "toString"; "valueOf";
    "__proto__"; "__defineGetter__"; "__defineSetter__";
    "__lookupGetter__"; "__lookupSetter__" ].

(** What [obj[key]] evaluates to for an object literal whose own
    properties are all strings: the own property, else the member
    inherited from [Object.prototype] (a function, or the prototype
    object itself for [__proto__]), else [undefined]. *)
Inductive value : Type :=
| VString (s : string)
| VInherited (key : string)
| VUndefined.

#[global] Instance value_eq_dec : EqDecision value.
Proof. solve_decision. Defined.

Definition get (obj : gmap string string) (key : string) : value :=
  match obj !! key with
  | Some s => VString s
  | None => if bool_decide (key ∈ ObjectPrototype)
            then VInherited key else VUndefined
  end.

Definition truthy (v : value) : bool :=
  match v with
  | VString s => truthy_string s
  | VInherited _ => true
  | VUndefined => false
  end.

(** [a || b] *)
Definition or (a b : value) : value := if truthy a then a else b.

End JS.

(* ===================================================================== *)
(** ** Color presets                                                      *)
(* ===================================================================== *)

Module ColorPalette.

(** The closed set of preset names offered by the [Select]. *)
Definition presets : list string :=
  [ "blue"; "purple"; "pink"; "orange"; "green"; "red" ].

(** [colorMap] of [WaveformVisualizer.getColorClass]. *)
Definition classMap : gmap string string :=
  <["blue"   := "bg-waveform-blue"]>
  (<["purple" := "bg-waveform-purple"]>
  (<["pink"   := "bg-waveform-pink"]>
  (<["orange" := "bg-waveform-orange"]>
  (<["green"  := "bg-waveform-green"]>
  (<["red"    := "bg-waveform-red"]> ∅))))).

Definition getColorClass (color : string) : JS.value :=
  JS.or (JS.get classMap color) (JS.VString "bg-waveform-blue").

(** [colorMap] of [Index]. *)
Definition colorMap : gmap string string :=
  <["blue"   := "#1E90FF"]>
  (<["purple" := "#8A2BE2"]>
  (<["pink"   := "#FF69B4"]>
  (<["orange" := "#FFA500"]>
  (<["green"  := "#00FF00"]>
  (<["red"    := "#FF0000"]> ∅))))).

(** [colorMap[waveformColor] || "#00FF00"] in the request body. *)
Definition resolveHex (waveformColor : string) : JS.value :=
  JS.or (JS.get colorMap waveformColor) (JS.VString "#00FF00").

End ColorPalette.

(* ===================================================================== *)
(** ** WaveformVisualizer                                                 *)
(* ===================================================================== *)

Module Waveform.

Definition barCount : nat := 64.

(** A bar of the container: its inline [style.height] in percent.
    [None] is a bar never written by [updateBars]; its height then
    comes from the class [h-1/5]. *)
Definition bar := option Q.

Definition idleHeight : Q := 20.

Definition shownHeight (b : bar) : Q :=
  match b with Some h => h | None => idleHeight end.

(** A live [setInterval] registration: the callback is [updateBars],
    closed over the [playing] of the render that created it. *)
Record interval := Interval {
  period : nat;
  remaining : nat;
  closure_playing : bool
}.

Record state := State {
  playing : bool;                     (* prop at the last render *)
  container : option (list bar);      (* containerRef.current.children *)
  intervals : list (nat * interval);  (* timer table, by interval id *)
  nextId : nat;
  cleanup : option nat;               (* [() => clearInterval(intervalId)] *)
  draws : nat;                        (* calls of Math.random so far *)
  now : nat;                          (* virtual clock, ms *)
  fired : list nat                    (* times at which updateBars ran *)
}.

Definition clearInterval (id : nat) (ivs : list (nat * interval))
  : list (nat * interval) :=
  filter (fun p => p.1 ≠ id) ivs.

(** React runs the cleanup of the previous effect run, if it returned
    one, before the next run and on unmount. *)
Definition runCleanup (st : state) : state :=
  match cleanup st with
  | Some id =>
      State (playing st) (container st) (clearInterval id (intervals st))
            (nextId st) None (draws st) (now st) (fired st)
  | None => st
  end.

(** The body of the [useEffect] up to its return value. *)
Definition effect (st : state) : state :=
  if negb (bool_decide (is_Some (container st))) || negb (playing st) then
    (* [return;] no cleanup *)
    State (playing st) (container st) (intervals st)
          (nextId st) None (draws st) (now st) (fired st)
  else
    (* [setInterval(updateBars, 100)] *)
    let intervalId := nextId st in
    State (playing st) (container st)
          (intervals st ++ [(intervalId, Interval 100 100 (playing st))])
          (S intervalId) (Some intervalId)
          (draws st) (now st) (fired st).

(** First render: 64 bars without inline height, then the effect. *)
Definition mount (p : bool) : state :=
  effect (State p (Some (replicate barCount None)) [] 0 None 0 0 []).

(** Re-render with prop [playing = p].  The dependency list is
    [[playing]]: the effect is torn down and re-run only on a change.
    The bars keep their inline heights: the JSX sets only
    [animationDelay] in [style]. *)
Definition render (p : bool) (st : state) : state :=
  if bool_decide (p = playing st) then st
  else
    let st1 := runCleanup st in
    effect (State p (container st1) (intervals st1) (nextId st1)
                  None (draws st1) (now st1) (fired st1)).

Section Random.

(** [Math.random]: the n-th call returns [random n]. *)
Variable random : nat -> Q.

(** [bars.forEach(bar => ...)] of [updateBars], threading the number
    of draws. *)
Fixpoint forEach (playing : bool) (bars : list bar) (d : nat)
  : list bar * nat :=
  match bars with
  | [] => ([], d)
  | _ :: rest =>
      if playing then
        let height := (random d * 100)%Q in
        let '(rest', d') := forEach playing rest (S d) in
        (Some height :: rest', d')
      else
        let '(rest', d') := forEach playing rest d in
        (Some 20%Q :: rest', d')
  end.

Definition updateBars (iv : interval) (st : state) : state :=
  match container st with
  | Some bars =>
      let '(bars', d) := forEach (closure_playing iv) bars (draws st) in
      State (playing st) (Some bars') (intervals st) (nextId st)
            (cleanup st) d (now st) (fired st ++ [now st])
  | None => st
  end.

Definition countDown (p : nat * interval) : nat * interval :=
  (p.1, Interval (period p.2) (pred (remaining p.2)) (closure_playing p.2)).

Definition isDue (p : nat * interval) : bool :=
  Nat.eqb (remaining p.2) 0.

Definition rearm (p : nat * interval) : nat * interval :=
  if isDue p
  then (p.1, Interval (period p.2) (period p.2) (closure_playing p.2))
  else p.

(** One millisecond passes: every interval counts down, the ones
    that reach zero run their callback and are re-armed. *)
Definition ms (st : state) : state :=
  let ivs := map countDown (intervals st) in
  let st1 := State (playing st) (container st) (map rearm ivs)
                   (nextId st) (cleanup st) (draws st)
                   (S (now st)) (fired st) in
  foldl (fun s p => updateBars p.2 s) st1 (filter (fun p => isDue p = true) ivs).

Definition elapse (n : nat) (st : state) : state := Nat.iter n ms st.

Inductive event := Render (p : bool) | Ms.

Definition step (e : event) (st : state) : state :=
  match e with
  | Render p => render p st
  | Ms => ms st
  end.

Definition run (evs : list event) (st : state) : state :=
  foldl (fun s e => step e s) st evs.

(** States the component can be in after mounting. *)
Definition reachable (st : state) : Prop :=
  exists p evs, st = run evs (mount p).

(** The shapes the component alternates between: no interval while
    not playing; while playing, one interval of period 100 whose
    callback was created by a render with [playing = true]. *)
Definition idle (st : state) : Prop :=
  playing st = false /\ intervals st = [] /\ cleanup st = None.

Definition ticking (st : state) (id r : nat) : Prop :=
  playing st = true /\
  intervals st = [(id, Interval 100 r true)] /\
  cleanup st = Some id /\ 1 <= r <= 100.

Definition inv (st : state) : Prop :=
  (exists bars, container st = Some bars /\ length bars = barCount) /\
  (idle st \/ exists id r, ticking st id r).

End Random.

(** A fixed sequence of draws, used where a concrete run is shown. *)
Definition sampleRandom (n : nat) : Q :=
  Z.of_nat (n * 37 mod 100) # 100.

End Waveform.

(* ===================================================================== *)
(** ** Index: submission handler and polling effect                       *)
(* ===================================================================== *)

(** The [JobStatus] interface: the body of a status reply. *)
Module Wire.
Record JobStatus := {
  job_id : string;
  status : string;
  progress : Q;
  audio_url : option string;
  video_url : option string;
  error : option string
}.
End Wire.

Module Index.

(** The [useState] cells of the component. *)
Record ui := UI {
  topic : JS.utf16;
  waveformColor : string;
  generatingPodcast : bool;
  podcastGenerated : bool;
  isPlaying : bool;
  jobId : option string;
  jobStatus : option Wire.JobStatus;
  progress : Q;
  audioUrl : option string
}.

(** Observable actions of the component, in program order. *)
Inductive effect :=
| FetchPost (topic : JS.utf16) (waveform_color : JS.value)
| FetchGet (jobId : string)
| ToastError (msg : string)
| ToastSuccess (msg : string)
| ConsoleError (msg : string)
| Download (href : string).

#[global] Instance effect_eq_dec : EqDecision effect.
Proof. solve_decision. Defined.

(** Suspended continuations: an awaited [fetch] of the handler, an
    awaited [fetch] of [checkStatus] (closed over [jobId]), and a
    [setTimeout(checkStatus, _)] with the milliseconds left. *)
Inductive task :=
| PostPending
| GetPending (jobId : string)
| Timer (remaining : nat) (jobId : string).

#[global] Instance task_eq_dec : EqDecision task.
Proof. solve_decision. Defined.

(** How an awaited [fetch(...)] followed by [response.json()] settles:
    the fetch promise rejects, or a response arrives with its [ok]
    flag and a body ([None]: [response.json()] rejects). *)
Inductive reply (A : Type) :=
| Rejected
| Response (ok : bool) (json : option A).
Arguments Rejected {A}.
Arguments Response {A} ok json.

(** A cleanup returned by an effect acts on the timer/continuation
    table. *)
Definition cleanupFn := list task -> list task.

Record world := World {
  state : ui;
  tasks : list task;
  log : list effect;
  cleanup : option cleanupFn     (* returned by the last effect run *)
}.

Definition setState (f : ui -> ui) (w : world) : world :=
  World (f (state w)) (tasks w) (log w) (cleanup w).

Definition emit (e : effect) (w : world) : world :=
  World (state w) (tasks w) (log w ++ [e]) (cleanup w).

Definition suspend (t : task) (w : world) : world :=
  World (state w) (tasks w ++ [t]) (log w) (cleanup w).

Definition setTopic v (s : ui) :=
  UI v (waveformColor s) (generatingPodcast s) (podcastGenerated s)
     (isPlaying s) (jobId s) (jobStatus s) (progress s) (audioUrl s).
Definition setWaveformColor v (s : ui) :=
  UI (topic s) v (generatingPodcast s) (podcastGenerated s)
     (isPlaying s) (jobId s) (jobStatus s) (progress s) (audioUrl s).
Definition setGeneratingPodcast v (s : ui) :=
  UI (topic s) (waveformColor s) v (podcastGenerated s)
     (isPlaying s) (jobId s) (jobStatus s) (progress s) (audioUrl s).
Definition setPodcastGenerated v (s : ui) :=
  UI (topic s) (waveformColor s) (generatingPodcast s) v
     (isPlaying s) (jobId s) (jobStatus s) (progress s) (audioUrl s).
Definition setIsPlaying v (s : ui) :=
  UI (topic s) (waveformColor s) (generatingPodcast s) (podcastGenerated s)
     v (jobId s) (jobStatus s) (progress s) (audioUrl s).
Definition setJobId v (s : ui) :=
  UI (topic s) (waveformColor s) (generatingPodcast s) (podcastGenerated s)
     (isPlaying s) v (jobStatus s) (progress s) (audioUrl s).
Definition setJobStatus v (s : ui) :=
  UI (topic s) (waveformColor s) (generatingPodcast s) (podcastGenerated s)
     (isPlaying s) (jobId s) v (progress s) (audioUrl s).
Definition setProgress v (s : ui) :=
  UI (topic s) (waveformColor s) (generatingPodcast s) (podcastGenerated s)
     (isPlaying s) (jobId s) (jobStatus s) v (audioUrl s).
Definition setAudioUrl v (s : ui) :=
  UI (topic s) (waveformColor s) (generatingPodcast s) (podcastGenerated s)
     (isPlaying s) (jobId s) (jobStatus s) (progress s) v.

(** *** handleGeneratePodcast *)

(** Up to the awaited [fetch]. *)
Definition handleGeneratePodcast (w : world) : world :=
  if negb (JS.truthy_utf16 (JS.trim (topic (state w)))) then
    emit (ToastError "Please enter a topic") w
  else
    let w := setState (setGeneratingPodcast true) w in
    let w := setState (setPodcastGenerated false) w in
    let w := setState (setJobId None) w in
    let w := setState (setJobStatus None) w in
    let w := setState (setProgress 0%Q) w in
    let w := emit (FetchPost (topic (state w))
                     (ColorPalette.resolveHex (waveformColor (state w)))) w in
    suspend PostPending w.

Definition handleGeneratePodcast_catch (w : world) : world :=
  let w := emit (ConsoleError "Error starting podcast generation:") w in
  let w := emit (ToastError "Failed to start podcast generation") w in
  setState (setGeneratingPodcast false) w.

(** From the settled [fetch] to the end of the handler. *)
Definition handleGeneratePodcast_resume (r : reply string) (w : world)
  : world :=
  match r with
  | Response true (Some job_id) =>
      let w := setState (setJobId (Some job_id)) w in
      emit (ToastSuccess "Podcast generation started") w
  | Response true None         (* response.json() rejects *)
  | Response false _           (* throw new Error(...) *)
  | Rejected =>
      handleGeneratePodcast_catch w
  end.

(** *** The polling effect *)

(** [checkStatus] up to the awaited [fetch]. *)
Definition checkStatus (jobId : string) (w : world) : world :=
  suspend (GetPending jobId) (emit (FetchGet jobId) w).

Definition checkStatus_catch (w : world) : world :=
  let w := emit (ConsoleError "Error checking job status:") w in
  let w := emit (ToastError "Failed to check job status") w in
  setState (setGeneratingPodcast false) w.

(** [data.error || "Unknown error"] *)
Definition errorText (data : Wire.JobStatus) : string :=
  match Wire.error data with
  | Some e => if JS.truthy_string e then e else "Unknown error"
  | None => "Unknown error"
  end.

(** [checkStatus] from the settled [fetch] to its end. *)
Definition checkStatus_resume (jobId : string)
    (r : reply Wire.JobStatus) (w : world) : world :=
  match r with
  | Response true (Some data) =>
      let w := setState (setJobStatus (Some data)) w in
      let w := setState (setProgress (Wire.progress data * 100)%Q) w in
      if String.eqb (Wire.status data) "completed" then
        let w := setState (setGeneratingPodcast false) w in
        let w := setState (setPodcastGenerated true) w in
        let w := setState (setAudioUrl (Wire.audio_url data)) w in
        emit (ToastSuccess "Podcast generated successfully") w
      else if String.eqb (Wire.status data) "failed" then
        let w := setState (setGeneratingPodcast false) w in
        emit (ToastError ("Podcast generation failed: " ++ errorText data)) w
      else
        suspend (Timer 2000 jobId) w
  | Response true None
  | Response false _
  | Rejected =>
      checkStatus_catch w
  end.

(** The [useEffect] callback with dependency [jobId]: the world after
    its body and the cleanup it returns.  Every path returns
    [undefined]. *)
Definition pollEffect (jobId : option string) (w : world)
  : world * option cleanupFn :=
  match jobId with
  | None => (w, None)
  | Some j =>
      if negb (JS.truthy_string j) then (w, None)
      else (checkStatus j w, None)
  end.

(** React calling the cleanup returned by the last run of the effect,
    as it does before it runs the effect again.  (Unmounting calls it
    too, and then stops writing the state cells: see [unmount] and
    [stepUnmounted].) *)
Definition teardown (w : world) : world :=
  match cleanup w with
  | Some f => World (state w) (f (tasks w)) (log w) None
  | None => w
  end.

(** After a handler segment: if [jobId] differs from its value at the
    previous render, tear the effect down and run it again. *)
Definition commit (prev : option string) (w : world) : world :=
  if bool_decide (jobId (state w) = prev) then w
  else
    let w := teardown w in
    let '(w, c) := pollEffect (jobId (state w)) w in
    World (state w) (tasks w) (log w) c.

(** *** Remaining controls *)

(** [disabled] of the submit button. *)
Definition submitDisabled (s : ui) : bool :=
  generatingPodcast s || negb (JS.truthy_utf16 (JS.trim (topic s))).

Definition togglePlayPause (w : world) : world :=
  if negb (podcastGenerated (state w)) then w
  else setState (setIsPlaying (negb (isPlaying (state w)))) w.

(** [jobStatus?.video_url], when truthy. *)
Definition videoRef (s : ui) : option string :=
  match jobStatus s with
  | Some d =>
      match Wire.video_url d with
      | Some u => if JS.truthy_string u then Some u else None
      | None => None
      end
  | None => None
  end.

Definition downloadPodcast (w : world) : world :=
  if negb (podcastGenerated (state w)) then w
  else match videoRef (state w) with
       | None => w
       | Some u =>
           let w := emit (Download ("http://localhost:8000" ++ u)) w in
           emit (ToastSuccess "Podcast downloading...") w
       end.

(** *** Event loop *)

(** One millisecond for the timer table: timers count down; the ones
    that expire leave the table and their [jobId]s are returned in
    order. *)
Fixpoint countDown (ts : list task) : list task * list string :=
  match ts with
  | [] => ([], [])
  | Timer r j :: rest =>
      let '(ts', due) := countDown rest in
      if (r <=? 1)%nat then (ts', j :: due) else (Timer (pred r) j :: ts', due)
  | t :: rest =>
      let '(ts', due) := countDown rest in (t :: ts', due)
  end.

Definition ms (w : world) : world :=
  let '(ts, due) := countDown (tasks w) in
  foldl (fun w j => checkStatus j w)
        (World (state w) ts (log w) (cleanup w)) due.

Inductive event :=
| TypeTopic (text : JS.utf16)
| SelectColor (name : string)
| ClickGenerate
| ClickPlayPause
| ClickDownload
| PostSettles (i : nat) (r : reply string)
| GetSettles (i : nat) (r : reply Wire.JobStatus)
| Ms.

Definition resolveTask (i : nat) (w : world) : world :=
  World (state w) (delete i (tasks w)) (log w) (cleanup w).

(** The code run by one event, before React commits. *)
Definition segment (e : event) (w : world) : world :=
  match e with
  | TypeTopic text => setState (setTopic text) w
  | SelectColor name =>
      if bool_decide (name ∈ ColorPalette.presets)
      then setState (setWaveformColor name) w else w
  | ClickGenerate =>
      if submitDisabled (state w) then w else handleGeneratePodcast w
  | ClickPlayPause =>
      if negb (podcastGenerated (state w)) then w else togglePlayPause w
  | ClickDownload =>
      if negb (podcastGenerated (state w)) then w else downloadPodcast w
  | PostSettles i r =>
      match tasks w !! i with
      | Some PostPending => handleGeneratePodcast_resume r (resolveTask i w)
      | _ => w
      end
  | GetSettles i r =>
      match tasks w !! i with
      | Some (GetPending j) => checkStatus_resume j r (resolveTask i w)
      | _ => w
      end
  | Ms => ms w
  end.

Definition step (e : event) (w : world) : world :=
  commit (jobId (state w)) (segment e w).

Definition run (evs : list event) (w : world) : world :=
  foldl (fun w e => step e w) w evs.

Definition elapse (n : nat) (w : world) : world := Nat.iter n (step Ms) w.

(** The component right after mounting: initial [useState] values; the
    effect ran with [jobId = null] and returned at once. *)
Definition initial : world :=
  World (UI [] "blue" false false false None None 0%Q None) [] [] None.

Definition reachable (w : world) : Prop := exists evs, w = run evs initial.

(** The status queries issued so far for one job. *)
Definition queries (j : string) (l : list effect) : nat :=
  length (filter (fun e => e = FetchGet j) l).

Definition isPost (e : effect) : bool :=
  match e with FetchPost _ _ => true | _ => false end.

(** The submission requests issued so far. *)
Definition submissions (l : list effect) : nat :=
  length (filter (fun e => isPost e = true) l).

Definition isToastError (e : effect) : bool :=
  match e with ToastError _ => true | _ => false end.

Definition errorReports (l : list effect) : nat :=
  length (filter (fun e => isToastError e = true) l).

(** The two statuses the branches of [checkStatus] treat as final. *)
Definition terminal (status : string) : bool :=
  String.eqb status "completed" || String.eqb status "failed".

(** A settled request that sends control to the [catch] block. *)
Definition failure {A} (r : reply A) : bool :=
  match r with
  | Response true (Some _) => false
  | _ => true
  end.

Definition blank (text : JS.utf16) : Prop :=
  Forall (fun c => JS.isWhiteSpace c = true) text.

(** At most one continuation is suspended at any time, and while one
    is, the run is flagged as generating with no result yet; no effect
    run has left a cleanup behind. *)
Definition inv (w : world) : Prop :=
  cleanup w = None /\
  (tasks w = [] \/
   (generatingPodcast (state w) = true /\
    podcastGenerated (state w) = false /\
    ((tasks w = [PostPending] /\ jobId (state w) = None) \/
     exists j, jobId (state w) = Some j /\
       (tasks w = [GetPending j] \/
        exists r, 1 <= r <= 2000 /\ tasks w = [Timer r j])))).

Definition notClick (e : event) : Prop := e <> ClickGenerate.

(** The state a failing run leaves behind, [w] being the world in
    which the failing reply arrives and [w'] the one after it: the
    run is no longer generating, the submit button is disabled only
    by a blank topic, no result is recorded ([podcastGenerated] is
    off, [audioUrl] is the one from before), and the play and
    download controls do nothing. *)
Definition leftAsFailed (w w' : world) : Prop :=
  generatingPodcast (state w') = false /\
  submitDisabled (state w') =
    negb (JS.truthy_utf16 (JS.trim (topic (state w')))) /\
  podcastGenerated (state w') = false /\
  audioUrl (state w') = audioUrl (state w) /\
  tasks w' = [] /\
  step ClickDownload w' = w' /\
  step ClickPlayPause w' = w'.

(** *** After unmount *)

(** Unmounting: React calls the cleanup returned by the last run of the
    effect.  What happens to the component afterwards is in
    [stepUnmounted]. *)
Definition unmount (w : world) : world := teardown w.

(** An event that reaches the closures of the component after unmount.
    Only the network and the clock can: a settled [fetch] resumes its
    handler, an expired timer calls [checkStatus].  That code runs as
    before ([fetch], [toast] and [setTimeout] do not belong to React),
    but React ignores the state setters of an unmounted component and
    runs none of its effects, so the state cells stay as they were.
    The controls left the document: user events do nothing. *)
Definition stepUnmounted (e : event) (w : world) : world :=
  match e with
  | PostSettles _ _ | GetSettles _ _ | Ms =>
      let w' := segment e w in
      World (state w) (tasks w') (log w') (cleanup w')
  | TypeTopic _ | SelectColor _ | ClickGenerate | ClickPlayPause
  | ClickDownload => w
  end.

Definition elapseUnmounted (n : nat) (w : world) : world :=
  Nat.iter n (stepUnmounted Ms) w.

(** A chain is live for a job while a status query for it is in flight
    or its timer is pending. *)
Definition live (j : string) (w : world) : Prop :=
  tasks w = [GetPending j] \/ exists r, tasks w = [Timer r j].

(** Cancellation as the claim has it, for the teardown that can meet a
    live chain, which is unmount: no status query is issued
    afterwards ... *)
Definition teardownSuppressesQueries : Prop :=
  forall w j n, reachable w ->
    queries j (log (elapseUnmounted n (unmount w))) = queries j (log w).

(** ... and the reply to a query in flight is discarded: nothing is
    shown and nothing is scheduled. *)
Definition teardownDiscardsInFlight : Prop :=
  forall w j r, reachable w -> tasks w = [GetPending j] ->
    let w' := stepUnmounted (GetSettles 0 r) (unmount w) in
    log w' = log w /\ tasks w' = [].

End Index.

(** The run of the specification's scenario: topic typed, submit
    clicked, the service answers with job "abc123", the first status
    reply says "processing" at 0.4. *)
Module Scenario.
Import Index.

Definition processing : Wire.JobStatus :=
  Wire.Build_JobStatus "abc123" "processing" (2 # 5) None None None.

Definition typedEvents : list event := [TypeTopic [83; 112]%N].
Definition submittedEvents : list event :=
  (typedEvents ++ [ClickGenerate])%list.
Definition pollingEvents : list event :=
  (submittedEvents ++ [PostSettles 0 (Response true (Some "abc123"))])%list.
Definition waitingEvents : list event :=
  (pollingEvents ++ [GetSettles 0 (Response true (Some processing))])%list.

Definition typed : world := run typedEvents initial.
Definition submitted : world := run submittedEvents initial.
Definition polling : world := run pollingEvents initial.
Definition waiting : world := run waitingEvents initial.
End Scenario.

(* ===================================================================== *)
(** ** Index: what is rendered, and the download                          *)
(* ===================================================================== *)

Module Page.
Import Index.

(** [topic.replace(/\s+/g, "_")]: every maximal run of white space
    becomes one underscore.  [inRun] tells that the previous code unit
    belonged to a run already replaced. *)
Fixpoint replaceSpaceRuns (inRun : bool) (s : JS.utf16) : JS.utf16 :=
  match s with
  | [] => []
  | c :: rest =>
      if JS.isWhiteSpace c then
        if inRun then replaceSpaceRuns true rest
        else 95%N :: replaceSpaceRuns true rest
      else c :: replaceSpaceRuns false rest
  end.

(** [a.download] of [downloadPodcast]:
    [`podcast_${topic.replace(/\s+/g, "_")}.mp4`], in code units. *)
Definition downloadName (topic : JS.utf16) : JS.utf16 :=
  ([112; 111; 100; 99; 97; 115; 116; 95]%N      (* podcast_ *)
   ++ replaceSpaceRuns false topic
   ++ [46; 109; 112; 52]%N)%list.               (* .mp4 *)

(** [generatingPodcast && (...)]: the block with the status text and
    the progress bar. *)
Definition progressVisible (s : ui) : bool := generatingPodcast s.

(** [jobStatus?.status || "Processing..."] *)
Definition statusLabel (s : ui) : string :=
  match jobStatus s with
  | Some d =>
      if JS.truthy_string (Wire.status d) then Wire.status d
      else "Processing..."
  | None => "Processing..."
  end.

(** The three things the preview card can show below the waveform. *)
Inductive panel :=
| Title (topic : JS.utf16)     (* the topic and "AI-generated podcast" *)
| Spinner                      (* "Crafting your podcast..." *)
| Placeholder.                 (* "Fill in the details ..." *)

Definition preview (s : ui) : panel :=
  if podcastGenerated s then Title (topic s)
  else if generatingPodcast s then Spinner
  else Placeholder.

(** Label of the submit button. *)
Definition submitLabel (s : ui) : string :=
  if generatingPodcast s then "Generating..." else "Generate Podcast".

(** [disabled] of the play and of the download button. *)
Definition resultControlsDisabled (s : ui) : bool :=
  negb (podcastGenerated s).

(** The hex colors of [colorMap]. *)
Definition hexColors : list string :=
  [ "#1E90FF"; "#8A2BE2"; "#FF69B4"; "#FFA500"; "#00FF00"; "#FF0000" ].

(** A request as the page is meant to send it: a submission carries a
    topic that is not blank and one of the six hex colors; a status
    query names a job id that is not empty. *)
Definition wellFormed (e : effect) : Prop :=
  match e with
  | FetchPost t c =>
      ~ blank t /\ exists h, h ∈ hexColors /\ c = JS.VString h
  | FetchGet j => j <> ""
  | _ => True
  end.

Definition namesJob (t : task) : Prop :=
  match t with
  | GetPending j | Timer _ j => j <> ""
  | PostPending => True
  end.

(** Kept by every step: the selected color is a preset, every request
    sent so far is well formed, and the chain polls a job with a name. *)
Definition requestsInv (w : world) : Prop :=
  waveformColor (state w) ∈ ColorPalette.presets /\
  Forall wellFormed (log w) /\
  Forall namesJob (tasks w).

(** Kept by every step: while a result is flagged, the run is over and
    the state cells hold the completed snapshot. *)
Definition resultInv (w : world) : Prop :=
  podcastGenerated (state w) = true ->
  generatingPodcast (state w) = false /\
  tasks w = [] /\
  exists d,
    jobStatus (state w) = Some d /\
    Wire.status d = "completed" /\
    audioUrl (state w) = Wire.audio_url d /\
    progress (state w) = (Wire.progress d * 100)%Q.

(** One round of the polling loop as the page lives it: a status reply
    arrives and 2000 ms pass. *)
Definition pollRound (data : Wire.JobStatus) (w : world) : world :=
  elapse 2000 (step (GetSettles 0 (Response true (Some data))) w).

Definition pollRounds (replies : list Wire.JobStatus) (w : world) : world :=
  foldl (fun w data => pollRound data w) w replies.

(** The events that come from the user, as opposed to the network and
    the clock. *)
Definition userEvent (e : event) : Prop :=
  match e with
  | TypeTopic _ | SelectColor _ | ClickGenerate | ClickPlayPause
  | ClickDownload => True
  | PostSettles _ _ | GetSettles _ _ | Ms => False
  end.

(** The reply that ends the scenario: the job is done and its files
    are named. *)
Definition completed : Wire.JobStatus :=
  Wire.Build_JobStatus "abc123" "completed" 1
    (Some "/files/a.mp3") (Some "/files/a.mp4") None.

(** A reply that ends a run in failure. *)
Definition failed : Wire.JobStatus :=
  Wire.Build_JobStatus "abc123" "failed" (2 # 5) None None
    (Some "tts engine unavailable").

(** The scenario run to its end. *)
Definition finishedEvents : list event :=
  (Scenario.pollingEvents
   ++ [GetSettles 0 (Response true (Some completed))])%list.

Definition finished : world := run finishedEvents initial.

End Page.

(* ===================================================================== *)
(** ** WaveformVisualizer: unmounting, and the size of the bars          *)
(* ===================================================================== *)

Module Visualizer.

(** React unmounts the component: the cleanup of the last effect run is
    called and the container leaves the document. *)
Definition unmount (st : Waveform.state) : Waveform.state :=
  let st1 := Waveform.runCleanup st in
  Waveform.State (Waveform.playing st1) None (Waveform.intervals st1)
    (Waveform.nextId st1) None (Waveform.draws st1) (Waveform.now st1)
    (Waveform.fired st1).

(** A bar height that fits the container: between 0% and 100%. *)
Definition inRange (b : Waveform.bar) : Prop :=
  (0 <= Waveform.shownHeight b)%Q /\ (Waveform.shownHeight b <= 100)%Q.

(** A run in which [playing] is switched on, off and on again. *)
Definition toggledEvents : list Waveform.event :=
  [Waveform.Render true; Waveform.Ms; Waveform.Render false;
   Waveform.Render true].

Definition toggled : Waveform.state :=
  Waveform.run Waveform.sampleRandom toggledEvents (Waveform.mount false).

(** A run of 100 ms with [playing] on from the start: one tick. *)
Definition afterOneTick : Waveform.state :=
  Waveform.run Waveform.sampleRandom (replicate 100 Waveform.Ms)
    (Waveform.mount true).

End Visualizer.

(* ===================================================================== *)
(** * Properties                                                          *)
(* ===================================================================== *)

Arguments Index.elapse : simpl never.
Arguments Index.elapseUnmounted : simpl never.
Arguments Waveform.elapse : simpl never.

(** ** Strings and presets *)

Lemma trimStart_blank (s : JS.utf16) :
  Forall (fun c => JS.isWhiteSpace c = true) s -> JS.trimStart s = [].
Proof.
  induction 1 as [|c s Hc _ IH]; simpl; [done|].
  by rewrite Hc.
Qed.

Lemma trim_blank (s : JS.utf16) : Index.blank s -> JS.trim s = [].
Proof.
  intros H. unfold JS.trim. by rewrite (trimStart_blank s H).
Qed.

Lemma trimStart_nil_blank (s : JS.utf16) :
  JS.trimStart s = [] -> Forall (fun c => JS.isWhiteSpace c = true) s.
Proof.
  induction s as [|c s IH]; simpl; [constructor|].
  destruct (JS.isWhiteSpace c) eqn:E; [|done].
  intros H. constructor; auto.
Qed.

(** [!topic.trim()] holds exactly for the blank topics. *)
Lemma trim_nil_iff_blank (s : JS.utf16) : JS.trim s = [] <-> Index.blank s.
Proof.
  split; [|apply trim_blank].
  unfold JS.trim, JS.trimEnd. intros H.
  assert (Hr : JS.trimStart (rev (JS.trimStart s)) = []).
  { apply (f_equal (@rev N)) in H. rewrite rev_involutive in H. exact H. }
  apply trimStart_nil_blank in Hr.
  assert (Hs : Forall (fun c => JS.isWhiteSpace c = true) (JS.trimStart s)).
  { rewrite <- (rev_involutive (JS.trimStart s)). by apply Forall_rev. }
  clear H Hr. unfold Index.blank.
  induction s as [|c s IH]; simpl in *; [constructor|].
  destruct (JS.isWhiteSpace c) eqn:E.
  - constructor; auto.
  - inversion Hs; congruence.
Qed.

Lemma getColorClass_preset (name : string) :
  name ∈ ColorPalette.presets ->
  ColorPalette.getColorClass name = JS.VString ("bg-waveform-" ++ name).
Proof.
  unfold ColorPalette.presets. rewrite !elem_of_cons, elem_of_nil.
  intros [->|[->|[->|[->|[->|[->|[]]]]]]]; vm_compute; reflexivity.
Qed.

Lemma get_unknown (m : gmap string string) (name : string) :
  m !! name = None -> name ∉ JS.ObjectPrototype ->
  JS.get m name = JS.VUndefined.
Proof.
  intros Hm Hp. unfold JS.get. rewrite Hm.
  by rewrite bool_decide_eq_false_2.
Qed.

Lemma classMap_unknown (name : string) :
  name ∉ ColorPalette.presets -> ColorPalette.classMap !! name = None.
Proof.
  unfold ColorPalette.presets, ColorPalette.classMap.
  rewrite !not_elem_of_cons. intros (?&?&?&?&?&?&_).
  by rewrite !lookup_insert_ne.
Qed.

Lemma colorMap_unknown (name : string) :
  name ∉ ColorPalette.presets -> ColorPalette.colorMap !! name = None.
Proof.
  unfold ColorPalette.presets, ColorPalette.colorMap.
  rewrite !not_elem_of_cons. intros (?&?&?&?&?&?&_).
  by rewrite !lookup_insert_ne.
Qed.

(** Names that are neither presets nor inherited members fall back to
    the default of each resolver. *)
Lemma getColorClass_unknown (name : string) :
  name ∉ ColorPalette.presets -> name ∉ JS.ObjectPrototype ->
  ColorPalette.getColorClass name = JS.VString "bg-waveform-blue".
Proof.
  intros Hp Ho. unfold ColorPalette.getColorClass.
  by rewrite (get_unknown _ _ (classMap_unknown _ Hp) Ho).
Qed.

Lemma resolveHex_unknown (name : string) :
  name ∉ ColorPalette.presets -> name ∉ JS.ObjectPrototype ->
  ColorPalette.resolveHex name = JS.VString "#00FF00".
Proof.
  intros Hp Ho. unfold ColorPalette.resolveHex.
  by rewrite (get_unknown _ _ (colorMap_unknown _ Hp) Ho).
Qed.

Lemma resolveHex_presets :
  map ColorPalette.resolveHex ColorPalette.presets =
  map JS.VString
      ["#1E90FF"; "#8A2BE2"; "#FF69B4"; "#FFA500"; "#00FF00"; "#FF0000"].
Proof. vm_compute. reflexivity. Qed.

(** C7: color resolution by [getColorClass] and by the request builder.
    A name outside the six presets does not always give the default
    preset: for a name that every object inherits, such as
    [constructor], the lookup finds the inherited member, which is
    truthy, so [||] never reaches the default. *)
Theorem resolve_inherited_name_not_default :
  ("constructor" ∉ ColorPalette.presets) /\
  ColorPalette.getColorClass "constructor" = JS.VInherited "constructor" /\
  ColorPalette.getColorClass "constructor" <> JS.VString "bg-waveform-blue" /\
  ColorPalette.resolveHex "constructor" = JS.VInherited "constructor" /\
  ColorPalette.resolveHex "constructor" <> JS.VString "#00FF00".
Proof.
  split; [|by vm_compute].
  unfold ColorPalette.presets. rewrite !not_elem_of_cons.
  repeat split; try discriminate. apply not_elem_of_nil.
Qed.

(** ** The event loop of [Index] *)

Import Index.

Lemma commit_same (prev : option string) (w : world) :
  jobId (state w) = prev -> commit prev w = w.
Proof. intros H. unfold commit. by rewrite bool_decide_eq_true_2. Qed.

Lemma commit_changed (prev : option string) (w : world) :
  jobId (state w) <> prev -> cleanup w = None ->
  commit prev w =
  World (state (pollEffect (jobId (state w)) w).1)
        (tasks (pollEffect (jobId (state w)) w).1)
        (log (pollEffect (jobId (state w)) w).1)
        (pollEffect (jobId (state w)) w).2.
Proof.
  intros H Hc. unfold commit, teardown. rewrite bool_decide_eq_false_2 by done.
  rewrite Hc. by destruct (pollEffect _ _).
Qed.

Lemma inv_initial : inv initial.
Proof. split; [done|by left]. Qed.

Ltac settle :=
  simpl; try rewrite lookup_nil; simpl;
  try (rewrite commit_same by done); simpl.

Ltac inv_close :=
  split; [done|];
  first
    [ by left
    | right; split; [done|]; split; [done|];
      first
        [ by left
        | right; eexists; split; [done|];
          first [ by left | right; eexists; split; [|done]; lia ] ] ].

Lemma inv_step (e : event) (w : world) : inv w -> inv (step e w).
Proof.
  destruct w as [[t c g pg ip ji js pr au] ts lg cl].
  unfold inv; simpl. intros [-> H].
  destruct e; unfold step, segment; simpl.
  - (* TypeTopic *) settle. done.
  - (* SelectColor *) case_bool_decide; settle; done.
  - (* ClickGenerate *)
    unfold submitDisabled; simpl.
    destruct g; simpl; [settle; done|].
    destruct H as [-> | (? & _)]; [|done].
    unfold handleGeneratePodcast; simpl.
    destruct (JS.truthy_utf16 (JS.trim t)); simpl; [|settle; inv_close].
    destruct ji as [j|]; [rewrite commit_changed by done|]; settle; inv_close.
  - (* ClickPlayPause *)
    unfold togglePlayPause; simpl.
    destruct pg; settle; [|done].
    split; [done|]. destruct H as [?|(?&?&?)]; [by left|done].
  - (* ClickDownload *)
    unfold downloadPodcast; simpl.
    destruct pg; simpl; [|settle; done].
    destruct (videoRef _); settle; done.
  - (* PostSettles *)
    destruct H as [-> | (-> & -> & [[-> ->] | (j & -> & [-> | (r' & Hr & ->)])])].
    + settle. inv_close.
    + destruct i as [|i]; [|settle; inv_close].
      destruct r as [|[] [id|]]; simpl; try (settle; inv_close).
      rewrite commit_changed by done. simpl.
      destruct (JS.truthy_string id); simpl; inv_close.
    + destruct i as [|i]; settle; inv_close.
    + destruct i as [|i]; settle; inv_close.
  - (* GetSettles *)
    destruct H as [-> | (-> & -> & [[-> ->] | (j & -> & [-> | (r' & Hr & ->)])])].
    + settle. inv_close.
    + destruct i as [|i]; settle; inv_close.
    + destruct i as [|i]; [|settle; inv_close].
      destruct r as [|[] [data|]]; simpl; try (settle; inv_close).
      destruct (String.eqb (Wire.status data) "completed"); [settle; inv_close|].
      destruct (String.eqb (Wire.status data) "failed"); settle; inv_close.
    + destruct i as [|i]; settle; inv_close.
  - (* Ms *)
    destruct H as [-> | (-> & -> & [[-> ->] | (j & -> & [-> | (r' & Hr & ->)])])];
      unfold ms; simpl; try (settle; inv_close).
    destruct (r' <=? 1)%nat eqn:E; settle; [inv_close|].
    apply Nat.leb_gt in E. inv_close.
Qed.

Lemma inv_run (evs : list event) (w : world) : inv w -> inv (run evs w).
Proof.
  revert w. induction evs as [|e evs IH]; intros w H; simpl; [done|].
  apply IH. by apply inv_step.
Qed.

Lemma inv_reachable (w : world) : reachable w -> inv w.
Proof. intros [evs ->]. apply inv_run, inv_initial. Qed.

Lemma reachable_step (e : event) (w : world) :
  reachable w -> reachable (step e w).
Proof.
  intros [evs ->]. exists (evs ++ [e])%list. unfold run. by rewrite foldl_app.
Qed.

Lemma reachable_run (evs : list event) (w : world) :
  reachable w -> reachable (run evs w).
Proof.
  intros [evs0 ->]. exists (evs0 ++ evs)%list. unfold run. by rewrite foldl_app.
Qed.

(** *** Counting requests and reports in the log *)

Lemma queries_snoc (j : string) (l : list effect) (e : effect) :
  queries j (l ++ [e]) =
  queries j l + (if decide (e = FetchGet j) then 1 else 0).
Proof.
  unfold queries. rewrite filter_app, length_app. f_equal.
  rewrite filter_cons, filter_nil. by destruct (decide _).
Qed.

Lemma submissions_snoc (l : list effect) (e : effect) :
  submissions (l ++ [e]) = submissions l + (if isPost e then 1 else 0).
Proof.
  unfold submissions. rewrite filter_app, length_app. f_equal.
  rewrite filter_cons, filter_nil. destruct (isPost e); by destruct (decide _).
Qed.

Lemma errorReports_snoc (l : list effect) (e : effect) :
  errorReports (l ++ [e]) =
  errorReports l + (if isToastError e then 1 else 0).
Proof.
  unfold errorReports. rewrite filter_app, length_app. f_equal.
  rewrite filter_cons, filter_nil.
  destruct (isToastError e); by destruct (decide _).
Qed.

(** *** Single steps *)

Lemma checkStatus_resume_jobId j r w :
  jobId (state (checkStatus_resume j r w)) = jobId (state w).
Proof.
  destruct r as [|[] [data|]]; simpl; try done.
  destruct (String.eqb _ _); [done|]. by destruct (String.eqb _ _).
Qed.

Lemma step_GetSettles (w : world) (i : nat) (j : string) r :
  tasks w !! i = Some (GetPending j) ->
  step (GetSettles i r) w = checkStatus_resume j r (resolveTask i w).
Proof.
  intros H. unfold step, segment. rewrite H.
  apply commit_same. by rewrite checkStatus_resume_jobId.
Qed.

Lemma foldl_checkStatus_state (due : list string) (w : world) :
  state (foldl (fun w j => checkStatus j w) w due) = state w.
Proof.
  revert w. induction due as [|j due IH]; intros w; simpl; [done|].
  by rewrite IH.
Qed.

Lemma step_Ms (w : world) : step Ms w = ms w.
Proof.
  unfold step, segment. apply commit_same.
  unfold ms. destruct (countDown (tasks w)) as [ts due].
  by rewrite foldl_checkStatus_state.
Qed.

Lemma step_Ms_wait (w : world) (r : nat) (j : string) :
  tasks w = [Timer r j] -> 1 < r ->
  step Ms w = World (state w) [Timer (pred r) j] (log w) (cleanup w).
Proof.
  intros Ht Hr. rewrite step_Ms. unfold ms. rewrite Ht. simpl.
  apply Nat.leb_gt in Hr. by rewrite Hr.
Qed.

Lemma step_Ms_fire (w : world) (r : nat) (j : string) :
  tasks w = [Timer r j] -> r <= 1 ->
  step Ms w =
  World (state w) [GetPending j] (log w ++ [FetchGet j]) (cleanup w).
Proof.
  intros Ht Hr. rewrite step_Ms. unfold ms. rewrite Ht. simpl.
  apply Nat.leb_le in Hr. by rewrite Hr.
Qed.

(** A pending timer only counts down until its delay has passed... *)
Lemma elapse_wait (n r : nat) (j : string) (w : world) :
  tasks w = [Timer r j] -> n < r ->
  elapse n w = World (state w) [Timer (r - n) j] (log w) (cleanup w).
Proof.
  intros Ht. induction n as [|n IH]; intros Hn.
  - simpl. rewrite Nat.sub_0_r, <- Ht. by destruct w.
  - unfold elapse in *. simpl. rewrite IH by lia.
    rewrite (step_Ms_wait _ (r - n) j) by (simpl; first [done | lia]).
    simpl. do 2 f_equal. f_equal. lia.
Qed.

(** ... and then runs [checkStatus] once. *)
Lemma elapse_fire (r : nat) (j : string) (w : world) :
  tasks w = [Timer r j] -> 1 <= r ->
  elapse r w =
  World (state w) [GetPending j] (log w ++ [FetchGet j]) (cleanup w).
Proof.
  intros Ht Hr. destruct r as [|n]; [lia|].
  unfold elapse. simpl. fold (elapse n w).
  rewrite (elapse_wait n (S n) j w Ht) by lia.
  by rewrite (step_Ms_fire _ (S n - n) j) by (simpl; first [done | lia]).
Qed.

(** *** Worlds with nothing suspended *)

Lemma quiet_step (e : event) (w : world) :
  tasks w = [] -> notClick e ->
  tasks (step e w) = [] /\
  cleanup (step e w) = cleanup w /\
  generatingPodcast (state (step e w)) = generatingPodcast (state w) /\
  podcastGenerated (state (step e w)) = podcastGenerated (state w) /\
  audioUrl (state (step e w)) = audioUrl (state w) /\
  submissions (log (step e w)) = submissions (log w) /\
  errorReports (log (step e w)) = errorReports (log w) /\
  (forall j, queries j (log (step e w)) = queries j (log w)).
Proof.
  destruct w as [[t c g pg ip ji js pr au] ts lg cl]. simpl.
  intros -> He.
  destruct e; unfold step, segment; simpl.
  - settle. done.
  - case_bool_decide; settle; done.
  - by destruct He.
  - unfold togglePlayPause. destruct pg; settle; done.
  - unfold downloadPodcast. destruct pg; simpl; [|settle; done].
    destruct (videoRef _); settle; [|done].
    rewrite !submissions_snoc, !errorReports_snoc. simpl.
    repeat split; try lia. intros j. rewrite !queries_snoc.
    repeat destruct (decide _); try done; lia.
  - settle. done.
  - settle. done.
  - unfold ms. settle. done.
Qed.

Lemma quiet_run (evs : list event) (w : world) :
  tasks w = [] -> Forall notClick evs ->
  tasks (run evs w) = [] /\
  generatingPodcast (state (run evs w)) = generatingPodcast (state w) /\
  podcastGenerated (state (run evs w)) = podcastGenerated (state w) /\
  audioUrl (state (run evs w)) = audioUrl (state w) /\
  submissions (log (run evs w)) = submissions (log w) /\
  errorReports (log (run evs w)) = errorReports (log w) /\
  (forall j, queries j (log (run evs w)) = queries j (log w)).
Proof.
  revert w. induction evs as [|e evs IH]; intros w Ht Hev; simpl; [done|].
  inversion Hev as [|? ? He Hevs]; subst.
  destruct (quiet_step e w Ht He) as (T & _ & G & P & A & S & E & Q).
  destruct (IH (step e w) T Hevs) as (T' & G' & P' & A' & S' & E' & Q').
  repeat split; try congruence; intros j; by rewrite Q', Q.
Qed.

(** Conclude, for the events [evs] in the goal, that nothing is
    suspended afterwards and that the counts of the log are kept. *)
Ltac quiet_after evs Hev T E Q :=
  match goal with
  | |- context [run evs ?w0] =>
      destruct (quiet_run evs w0 eq_refl Hev) as (T & _ & _ & _ & _ & E & Q)
  end.

(** *** Only a click on the submit button issues a submission request *)

Lemma commit_submissions (prev : option string) (w : world) :
  submissions (log (commit prev w)) = submissions (log w).
Proof.
  unfold commit. case_bool_decide; [done|].
  unfold teardown. destruct (cleanup w); simpl;
    (destruct (jobId (state w)) as [j|]; simpl; [|done]);
    (destruct (JS.truthy_string j); simpl; [|done]);
    rewrite submissions_snoc; simpl; lia.
Qed.

Lemma foldl_checkStatus_submissions (due : list string) (w : world) :
  submissions (log (foldl (fun w j => checkStatus j w) w due)) =
  submissions (log w).
Proof.
  revert w. induction due as [|j due IH]; intros w; simpl; [done|].
  rewrite IH. simpl. rewrite submissions_snoc. simpl. lia.
Qed.

Lemma step_submissions (e : event) (w : world) :
  notClick e -> submissions (log (step e w)) = submissions (log w).
Proof.
  intros He. unfold step. rewrite commit_submissions.
  destruct e; simpl; try done.
  - by case_bool_decide.
  - unfold togglePlayPause. by destruct (podcastGenerated (state w)).
  - unfold downloadPodcast. destruct (podcastGenerated (state w)); simpl; [|done].
    destruct (videoRef _); simpl; [|done].
    rewrite !submissions_snoc. simpl. lia.
  - destruct (tasks w !! i) as [[]|]; try done.
    destruct r as [|[] [id|]]; simpl; rewrite !submissions_snoc; simpl; lia.
  - destruct (tasks w !! i) as [[]|]; try done.
    destruct r as [|[] [data|]]; simpl;
      try (rewrite !submissions_snoc; simpl; lia).
    destruct (String.eqb _ _); simpl.
    { rewrite submissions_snoc. simpl. lia. }
    destruct (String.eqb _ _); simpl; [|done].
    rewrite submissions_snoc. simpl. lia.
  - unfold ms. destruct (countDown (tasks w)) as [ts due].
    by rewrite foldl_checkStatus_submissions.
Qed.

Lemma run_submissions (evs : list event) (w : world) :
  Forall notClick evs -> submissions (log (run evs w)) = submissions (log w).
Proof.
  revert w. induction evs as [|e evs IH]; intros w Hev; simpl; [done|].
  inversion Hev; subst. rewrite IH by done. by apply step_submissions.
Qed.

(** In a reachable world a suspended continuation is the only one. *)
Lemma reachable_sole_task (w : world) (i : nat) (t : task) :
  reachable w -> tasks w !! i = Some t ->
  i = 0 /\ tasks w = [t] /\ cleanup w = None /\
  generatingPodcast (state w) = true /\ podcastGenerated (state w) = false.
Proof.
  intros Hr Hi. destruct (inv_reachable w Hr) as [Hc H].
  destruct H as [E | (G & P & [[E _] | (j & _ & [E | (r & _ & E)])])];
    rewrite E in Hi |- *;
    try (by rewrite lookup_nil in Hi);
    (destruct i as [|i]; simpl in Hi; [|by rewrite lookup_nil in Hi]);
    by inversion Hi.
Qed.

Lemma snapshot_stored
    (w : world) (i : nat) (j : string) (data : Wire.JobStatus) :
  tasks w !! i = Some (GetPending j) ->
  progress (state (step (GetSettles i (Response true (Some data))) w))
  = (Wire.progress data * 100)%Q /\
  jobStatus (state (step (GetSettles i (Response true (Some data))) w))
  = Some data.
Proof.
  intros Hi. rewrite (step_GetSettles w i j _ Hi). simpl.
  destruct (String.eqb _ _); [done|]. by destruct (String.eqb _ _).
Qed.

Lemma typed_reachable : reachable Scenario.typed.
Proof. by exists Scenario.typedEvents. Qed.

Lemma submitted_reachable : reachable Scenario.submitted.
Proof. by exists Scenario.submittedEvents. Qed.

Lemma polling_reachable : reachable Scenario.polling.
Proof. by exists Scenario.pollingEvents. Qed.

Lemma waiting_reachable : reachable Scenario.waiting.
Proof. by exists Scenario.waitingEvents. Qed.

(** ** The claims about [Index] *)

(** C10: a topic that is empty or made of white space only makes
    [handleGeneratePodcast] return after its guard: no request is sent,
    nothing is suspended, every state cell keeps its value and the
    polling effect is not re-run; the only action is the toast.  The
    submit button is disabled for such a topic, so a click does
    nothing at all. *)
Theorem blank_topic_leaves_job_state (w : world) :
  blank (topic (state w)) ->
  let w' := commit (jobId (state w)) (handleGeneratePodcast w) in
  state w' = state w /\
  tasks w' = tasks w /\
  log w' = (log w ++ [ToastError "Please enter a topic"])%list /\
  submissions (log w') = submissions (log w) /\
  (forall j, queries j (log w') = queries j (log w)) /\
  step ClickGenerate w = w.
Proof.
  intros Hb. apply trim_blank in Hb. simpl.
  unfold handleGeneratePodcast. rewrite Hb. simpl.
  rewrite commit_same by done. simpl.
  rewrite submissions_snoc. simpl.
  repeat split; try lia.
  - intros j. rewrite queries_snoc. destruct (decide _); [done|lia].
  - unfold step, segment, submitDisabled. rewrite Hb. simpl.
    rewrite orb_true_r. by apply commit_same.
Qed.

Lemma blank_topic_leaves_job_state_witness :
  let w := run [TypeTopic [32; 9; 160]%N] initial in
  blank (topic (state w)) /\
  state (commit (jobId (state w)) (handleGeneratePodcast w)) = state w.
Proof.
  split.
  - repeat constructor.
  - apply (blank_topic_leaves_job_state (run [TypeTopic [32; 9; 160]%N] initial)).
    repeat constructor.
Defined.

(** C6: a status snapshot sets the displayed progress to its own
    progress times 100, whatever the value (no clamping to 0..100) and
    whatever was displayed before (no monotonicity check). *)
Theorem snapshot_progress_applied_as_is
    (w : world) (i : nat) (j : string) (data : Wire.JobStatus) :
  tasks w !! i = Some (GetPending j) ->
  let w' := step (GetSettles i (Response true (Some data))) w in
  progress (state w') = (Wire.progress data * 100)%Q /\
  jobStatus (state w') = Some data.
Proof.
  intros Hi. cbv zeta. rewrite (step_GetSettles w i j _ Hi).
  unfold checkStatus_resume.
  destruct (String.eqb (Wire.status data) "completed"); [done|].
  by destruct (String.eqb (Wire.status data) "failed").
Qed.

Lemma snapshot_progress_applied_as_is_witness :
  let data := Wire.Build_JobStatus "abc123" "processing" (3 # 2)
                None None None in
  tasks Scenario.polling !! 0 = Some (GetPending "abc123") /\
  progress (state (step (GetSettles 0 (Response true (Some data)))
                     Scenario.polling))
  = ((3 # 2) * 100)%Q.
Proof.
  split; [reflexivity|].
  apply (snapshot_progress_applied_as_is Scenario.polling 0 "abc123").
  reflexivity.
Defined.

(** C3: when a status snapshot is delivered, a terminal status
    (completed or failed) leaves nothing suspended and no status query
    is issued from then on, whatever happens short of a new submission;
    any other status schedules exactly one timer of 2000 ms (2 s), no
    query is issued while it runs, and when it expires exactly one
    query for the same job is issued. *)
Theorem poll_loop_stops_or_repolls
    (w : world) (i : nat) (j : string) (data : Wire.JobStatus) :
  reachable w -> tasks w !! i = Some (GetPending j) ->
  let w' := step (GetSettles i (Response true (Some data))) w in
  (terminal (Wire.status data) = true ->
     tasks w' = [] /\
     (forall j', queries j' (log w') = queries j' (log w)) /\
     (forall evs, Forall notClick evs ->
        tasks (run evs w') = [] /\
        forall j', queries j' (log (run evs w')) = queries j' (log w))) /\
  (terminal (Wire.status data) = false ->
     tasks w' = [Timer 2000 j] /\
     log w' = log w /\
     (forall n, n < 2000 ->
        log (elapse n w') = log w /\
        tasks (elapse n w') = [Timer (2000 - n) j]) /\
     log (elapse 2000 w') = (log w ++ [FetchGet j])%list /\
     tasks (elapse 2000 w') = [GetPending j]).
Proof.
  intros Hr Hi.
  destruct (reachable_sole_task w i _ Hr Hi) as (-> & Ht & _).
  cbv zeta. rewrite (step_GetSettles w 0 j _ Hi).
  destruct w as [s ts lg cl]. simpl in Ht. subst ts.
  unfold terminal. remember 2000 as D eqn:HD. simpl.
  destruct (String.eqb (Wire.status data) "completed"); simpl.
  { split; [|done]. intros _.
    assert (Q0 : forall j', queries j'
                   (lg ++ [ToastSuccess "Podcast generated successfully"])
                 = queries j' lg).
    { intros j'. rewrite queries_snoc. destruct (decide _); [done|lia]. }
    split; [done|]. split; [done|]. intros evs Hev.
    quiet_after evs Hev HT HE HQ.
    split; [exact HT|]. intros j'. rewrite HQ. apply Q0. }
  destruct (String.eqb (Wire.status data) "failed"); simpl.
  { split; [|done]. intros _.
    assert (Q0 : forall j', queries j'
                   (lg ++ [ToastError ("Podcast generation failed: "
                                       ++ errorText data)])
                 = queries j' lg).
    { intros j'. rewrite queries_snoc. destruct (decide _); [done|lia]. }
    split; [done|]. split; [done|]. intros evs Hev.
    quiet_after evs Hev HT HE HQ.
    split; [exact HT|]. intros j'. rewrite HQ. apply Q0. }
  split; [done|]. intros _.
  split; [by rewrite HD|]. split; [done|]. split.
  - intros n Hn. subst D.
    match goal with
    | |- context [elapse n ?w0] =>
        rewrite (elapse_wait n 2000 j w0 eq_refl Hn)
    end.
    split; reflexivity.
  - subst D.
    match goal with
    | |- context [elapse 2000 ?w0] =>
        rewrite (elapse_fire 2000 j w0 eq_refl) by lia
    end.
    split; reflexivity.
Qed.

Lemma poll_loop_stops_or_repolls_witness :
  reachable Scenario.polling /\
  tasks Scenario.polling !! 0 = Some (GetPending "abc123") /\
  (terminal (Wire.status Scenario.processing) = false ->
   tasks (step (GetSettles 0 (Response true (Some Scenario.processing)))
            Scenario.polling)
   = [Timer 2000 "abc123"]).
Proof.
  split; [exact polling_reachable|].
  split; [reflexivity|].
  intros H.
  apply (poll_loop_stops_or_repolls Scenario.polling 0 "abc123"
           Scenario.processing polling_reachable eq_refl).
  exact H.
Defined.

(** C4: a status query that fails (the fetch rejects, the response is
    not ok, or its body cannot be read) ends the loop: the failure is
    reported by exactly one error toast, the stored snapshot is left as
    it was, nothing is scheduled, and no query and no further error
    report follows for as long as no new submission is made. *)
Theorem poll_failure_ends_loop
    (w : world) (i : nat) (j : string) (r : reply Wire.JobStatus) :
  reachable w -> tasks w !! i = Some (GetPending j) -> failure r = true ->
  let w' := step (GetSettles i r) w in
  log w' = (log w ++ [ConsoleError "Error checking job status:";
                      ToastError "Failed to check job status"])%list /\
  errorReports (log w') = S (errorReports (log w)) /\
  (forall j', queries j' (log w') = queries j' (log w)) /\
  jobStatus (state w') = jobStatus (state w) /\
  generatingPodcast (state w') = false /\
  tasks w' = [] /\
  (forall evs, Forall notClick evs ->
     tasks (run evs w') = [] /\
     errorReports (log (run evs w')) = S (errorReports (log w)) /\
     forall j', queries j' (log (run evs w')) = queries j' (log w)).
Proof.
  intros Hr Hi Hf.
  destruct (reachable_sole_task w i _ Hr Hi) as (-> & Ht & _).
  simpl. rewrite (step_GetSettles w 0 j _ Hi).
  destruct w as [s ts lg cl]. simpl in Ht. subst ts.
  assert (E : checkStatus_resume j r (resolveTask 0 (World s [GetPending j] lg cl))
              = checkStatus_catch (World s [] lg cl)).
  { by destruct r as [|[] [data|]]. }
  rewrite E. clear E. unfold checkStatus_catch. simpl.
  assert (L : ((lg ++ [ConsoleError "Error checking job status:"]) ++
               [ToastError "Failed to check job status"])%list
              = (lg ++ [ConsoleError "Error checking job status:";
                        ToastError "Failed to check job status"])%list).
  { by rewrite <- app_assoc. }
  assert (R : errorReports
                ((lg ++ [ConsoleError "Error checking job status:"]) ++
                 [ToastError "Failed to check job status"])
              = S (errorReports lg)).
  { rewrite !errorReports_snoc. simpl. lia. }
  assert (Q0 : forall j', queries j'
                 ((lg ++ [ConsoleError "Error checking job status:"]) ++
                  [ToastError "Failed to check job status"])
               = queries j' lg).
  { intros j'. rewrite !queries_snoc.
    repeat destruct (decide _); try done; lia. }
  split; [exact L|]. split; [exact R|]. split; [exact Q0|].
  split; [done|]. split; [done|]. split; [done|].
  intros evs Hev. quiet_after evs Hev HT HE HQ.
  split; [exact HT|]. split; [by rewrite HE|].
  intros j'. rewrite HQ. apply Q0.
Qed.

Lemma poll_failure_ends_loop_witness :
  reachable Scenario.polling /\
  tasks Scenario.polling !! 0 = Some (GetPending "abc123") /\
  failure (@Rejected Wire.JobStatus) = true /\
  tasks (step (GetSettles 0 Rejected) Scenario.polling) = [].
Proof.
  split; [exact polling_reachable|].
  split; [reflexivity|].
  split; [reflexivity|].
  apply (poll_failure_ends_loop Scenario.polling 0 "abc123" Rejected
           polling_reachable eq_refl eq_refl).
Defined.

(** C5: with the submit button enabled (not generating, topic not
    blank), a click sends exactly one POST and suspends.  When it
    settles, a readable ok response stores its [job_id] and reports no
    error; every other outcome (rejected fetch, response not ok,
    unreadable body) reports one error, stores no job id and ends the
    run.  Never both, and no second POST follows without a new click. *)
Theorem submit_once_job_or_error (w : world) (r : reply string) :
  reachable w -> submitDisabled (state w) = false ->
  let w1 := step ClickGenerate w in
  let w2 := step (PostSettles 0 r) w1 in
  log w1 = (log w ++ [FetchPost (topic (state w))
                        (ColorPalette.resolveHex (waveformColor (state w)))])%list /\
  tasks w1 = [PostPending] /\
  jobId (state w1) = None /\
  submissions (log w2) = S (submissions (log w)) /\
  match r with
  | Response true (Some id) =>
      jobId (state w2) = Some id /\
      errorReports (log w2) = errorReports (log w) /\
      generatingPodcast (state w2) = true
  | _ =>
      jobId (state w2) = None /\
      errorReports (log w2) = S (errorReports (log w)) /\
      generatingPodcast (state w2) = false /\
      tasks w2 = []
  end /\
  (forall evs, Forall notClick evs ->
     submissions (log (run evs w2)) = S (submissions (log w))).
Proof.
  intros Hr Hd.
  destruct (inv_reachable w Hr) as [Hc H].
  destruct w as [[t c g pg ip ji js pr au] ts lg cl]. simpl in *. subst cl.
  unfold submitDisabled in Hd. simpl in Hd.
  apply orb_false_elim in Hd as [-> Ht]. apply negb_false_iff in Ht.
  destruct H as [-> | (? & _)]; [|done].
  assert (E1 : step ClickGenerate
                 (World (UI t c false pg ip ji js pr au) [] lg None)
          = World (UI t c true false ip None None 0%Q au) [PostPending]
              (lg ++ [FetchPost t (ColorPalette.resolveHex c)]) None).
  { unfold step, segment, submitDisabled, handleGeneratePodcast. simpl.
    rewrite Ht. simpl.
    destruct ji as [j|]; [by rewrite commit_changed|by rewrite commit_same]. }
  simpl. rewrite E1. simpl.
  split; [done|]. split; [done|]. split; [done|].
  assert (S1 : submissions (lg ++ [FetchPost t (ColorPalette.resolveHex c)])
               = S (submissions lg)).
  { rewrite submissions_snoc. simpl. lia. }
  assert (S2 : submissions
                 (log (step (PostSettles 0 r)
                         (World (UI t c true false ip None None 0%Q au)
                            [PostPending]
                            (lg ++ [FetchPost t (ColorPalette.resolveHex c)])
                            None)))
               = S (submissions lg)).
  { rewrite step_submissions by done. exact S1. }
  split; [exact S2|]. split.
  - unfold step, segment. simpl.
    destruct r as [|[] [id|]]; simpl;
      try (rewrite commit_changed by done; simpl;
           destruct (JS.truthy_string id); simpl);
      rewrite !errorReports_snoc; simpl; repeat split; lia.
  - intros evs Hev. rewrite run_submissions by done. exact S2.
Qed.

Lemma submit_once_job_or_error_witness :
  reachable Scenario.typed /\
  submitDisabled (state Scenario.typed) = false /\
  tasks (step ClickGenerate Scenario.typed) = [PostPending].
Proof.
  split; [exact typed_reachable|].
  split; [reflexivity|].
  apply (submit_once_job_or_error Scenario.typed
           (Response true (Some "abc123")) typed_reachable eq_refl).
Defined.

Lemma idle_controls (s : ui) (lg : list effect) :
  podcastGenerated s = false ->
  step ClickDownload (World s [] lg None) = World s [] lg None /\
  step ClickPlayPause (World s [] lg None) = World s [] lg None.
Proof.
  intros Hp. unfold step, segment. simpl. rewrite Hp. simpl.
  by rewrite commit_same.
Qed.

(** C9: each of the three terminal failures (the submission request
    fails, a status query fails, a snapshot reports "failed") clears
    the generating flag, so the submit button is disabled only by a
    blank topic; the run records no result: [podcastGenerated] is off,
    [audioUrl] keeps the value it had, nothing stays suspended, and the
    play and download controls do nothing. *)
Theorem failure_reenables_submission (w : world) (i : nat) :
  reachable w ->
  (forall r, tasks w !! i = Some PostPending -> failure r = true ->
     leftAsFailed w (step (PostSettles i r) w)) /\
  (forall j r, tasks w !! i = Some (GetPending j) -> failure r = true ->
     leftAsFailed w (step (GetSettles i r) w)) /\
  (forall j data, tasks w !! i = Some (GetPending j) ->
     Wire.status data = "failed" ->
     leftAsFailed w (step (GetSettles i (Response true (Some data))) w)).
Proof.
  intros Hr. split; [|split].
  - intros r Hi Hf.
    destruct (reachable_sole_task w i _ Hr Hi) as (-> & Ht & Hc & _ & Hp).
    destruct w as [s ts lg cl]. simpl in *. subst ts cl.
    assert (E : step (PostSettles 0 r) (World s [PostPending] lg None)
                = handleGeneratePodcast_catch (World s [] lg None)).
    { unfold step, segment. simpl.
      destruct r as [|[] [id|]]; try done; by rewrite commit_same. }
    rewrite E. unfold handleGeneratePodcast_catch, leftAsFailed. simpl.
    destruct s as [t c g pg ip ji js pr au]. simpl in *. subst pg.
    repeat split; try done; by apply idle_controls.
  - intros j r Hi Hf.
    destruct (reachable_sole_task w i _ Hr Hi) as (-> & Ht & Hc & _ & Hp).
    rewrite (step_GetSettles w 0 j _ Hi).
    destruct w as [s ts lg cl]. simpl in *. subst ts cl.
    assert (E : checkStatus_resume j r
                  (resolveTask 0 (World s [GetPending j] lg None))
                = checkStatus_catch (World s [] lg None)).
    { by destruct r as [|[] [data|]]. }
    rewrite E. unfold checkStatus_catch, leftAsFailed. simpl.
    destruct s as [t c g pg ip ji js pr au]. simpl in *. subst pg.
    repeat split; try done; by apply idle_controls.
  - intros j data Hi Hs.
    destruct (reachable_sole_task w i _ Hr Hi) as (-> & Ht & Hc & _ & Hp).
    rewrite (step_GetSettles w 0 j _ Hi).
    destruct w as [s ts lg cl]. simpl in *. subst ts cl.
    unfold checkStatus_resume. rewrite Hs. simpl.
    unfold leftAsFailed. simpl.
    destruct s as [t c g pg ip ji js pr au]. simpl in *. subst pg.
    repeat split; try done; by apply idle_controls.
Qed.

Lemma failure_reenables_submission_witness :
  reachable Scenario.submitted /\
  tasks Scenario.submitted !! 0 = Some PostPending /\
  failure (Response false (@None string)) = true /\
  leftAsFailed Scenario.submitted
    (step (PostSettles 0 (Response false None)) Scenario.submitted).
Proof.
  split; [exact submitted_reachable|].
  split; [reflexivity|].
  split; [reflexivity|].
  exact (proj1 (failure_reenables_submission Scenario.submitted 0
                  submitted_reachable)
           (Response false None) eq_refl eq_refl).
Defined.

(** ** Cancellation *)

(** The polling effect never leaves a cleanup behind, so tearing it
    down changes nothing. *)
Lemma teardown_noop (w : world) : reachable w -> teardown w = w.
Proof.
  intros Hr. destruct (inv_reachable w Hr) as [Hc _].
  unfold teardown. by rewrite Hc.
Qed.

(** Time passing after unmount does what it does before: the timer
    table is not React's. *)
Lemma stepUnmounted_Ms (w : world) : stepUnmounted Ms w = step Ms w.
Proof.
  rewrite step_Ms. unfold stepUnmounted, segment.
  assert (E : state (ms w) = state w).
  { unfold ms. destruct (countDown (tasks w)) as [ts due].
    by rewrite foldl_checkStatus_state. }
  rewrite <- E. by destruct (ms w).
Qed.

Lemma elapseUnmounted_elapse (n : nat) (w : world) :
  elapseUnmounted n w = elapse n w.
Proof.
  induction n as [|n IH]; [reflexivity|].
  change (elapseUnmounted (S n) w)
    with (stepUnmounted Ms (elapseUnmounted n w)).
  change (elapse (S n) w) with (step Ms (elapse n w)).
  by rewrite IH, stepUnmounted_Ms.
Qed.

(** While a chain is live no event changes [jobId]: the submit button
    is disabled and nothing else writes that cell.  The effect is
    therefore never re-run under a live chain. *)
Lemma live_chain_keeps_jobId (e : event) (w : world) (j : string) :
  reachable w -> live j w ->
  jobId (state (step e w)) = jobId (state w).
Proof.
  intros Hr Hl. destruct (inv_reachable w Hr) as [Hc H].
  assert (G : generatingPodcast (state w) = true).
  { destruct H as [E | (G & _)]; [|exact G].
    destruct Hl as [Ht | [r Ht]]; rewrite Ht in E; discriminate E. }
  assert (Hp : forall i, tasks w !! i <> Some PostPending).
  { intros i Hi. destruct (reachable_sole_task w i _ Hr Hi) as (_ & Ht & _).
    destruct Hl as [Hl | [r Hl]]; rewrite Hl in Ht; discriminate Ht. }
  unfold step.
  assert (Hs : jobId (state (segment e w)) = jobId (state w)).
  { destruct e; unfold segment.
    - done.
    - by case_bool_decide.
    - unfold submitDisabled. by rewrite G.
    - unfold togglePlayPause. by destruct (podcastGenerated (state w)).
    - unfold downloadPodcast. destruct (podcastGenerated (state w)); [|done].
      by destruct (videoRef (state w)).
    - destruct (tasks w !! i) as [[| |]|] eqn:Ei; try done.
      by destruct (Hp i).
    - destruct (tasks w !! i) as [[| j' |]|]; try done.
      by rewrite checkStatus_resume_jobId.
    - unfold ms. destruct (countDown (tasks w)) as [ts due].
      by rewrite foldl_checkStatus_state. }
  by rewrite commit_same.
Qed.




(* ===================================================================== *)
(** ** The render loop of [WaveformVisualizer]                            *)
(* ===================================================================== *)

Section WaveformFacts.

Variable random : nat -> Q.

Abbreviation ms := (Waveform.ms random).
Abbreviation elapse := (Waveform.elapse random).
Abbreviation forEach := (Waveform.forEach random).

(** One pass of [updateBars] with [playing] on: bar [i] gets draw
    number [d + i], scaled to percent. *)
Lemma forEach_playing (bars : list Waveform.bar) (d : nat) :
  forEach true bars d =
  (map (fun i => Some (random (d + i) * 100)%Q) (seq 0 (length bars)),
   d + length bars).
Proof.
  revert d. induction bars as [|b bars IH]; intros d; simpl.
  - by rewrite Nat.add_0_r.
  - rewrite IH. rewrite Nat.add_0_r. f_equal; [|lia].
    f_equal. rewrite <- seq_shift, map_map.
    apply map_ext. intros i. do 3 f_equal. lia.
Qed.

Lemma ms_idle (st : Waveform.state) :
  Waveform.intervals st = [] ->
  ms st = Waveform.State (Waveform.playing st) (Waveform.container st) []
            (Waveform.nextId st) (Waveform.cleanup st) (Waveform.draws st)
            (S (Waveform.now st)) (Waveform.fired st).
Proof. intros H. unfold Waveform.ms. by rewrite H. Qed.

Lemma elapse_idle (n : nat) (st : Waveform.state) :
  Waveform.intervals st = [] ->
  elapse n st =
  Waveform.State (Waveform.playing st) (Waveform.container st) []
    (Waveform.nextId st) (Waveform.cleanup st) (Waveform.draws st)
    (Waveform.now st + n) (Waveform.fired st).
Proof.
  intros H. induction n as [|n IH].
  - simpl. rewrite Nat.add_0_r, <- H. by destruct st.
  - unfold Waveform.elapse in *. simpl. rewrite IH.
    rewrite ms_idle by done. simpl. do 2 f_equal. lia.
Qed.

Lemma ms_wait p bars id r nid cl d t f :
  ms (Waveform.State p (Some bars)
        [(id, Waveform.Interval 100 (S (S r)) true)] nid cl d t f)
  = Waveform.State p (Some bars)
      [(id, Waveform.Interval 100 (S r) true)] nid cl d (S t) f.
Proof. reflexivity. Qed.

Lemma ms_tick p bars id nid cl d t f :
  ms (Waveform.State p (Some bars)
        [(id, Waveform.Interval 100 1 true)] nid cl d t f)
  = Waveform.State p
      (Some (map (fun i => Some (random (d + i) * 100)%Q)
                 (seq 0 (length bars))))
      [(id, Waveform.Interval 100 100 true)] nid cl
      (d + length bars) (S t) (f ++ [S t]).
Proof.
  unfold Waveform.ms. simpl. unfold Waveform.updateBars. simpl.
  by rewrite forEach_playing.
Qed.

Lemma elapse_wait_tick p bars id nid cl d t f (n r : nat) :
  n < r ->
  elapse n (Waveform.State p (Some bars)
              [(id, Waveform.Interval 100 r true)] nid cl d t f)
  = Waveform.State p (Some bars)
      [(id, Waveform.Interval 100 (r - n) true)] nid cl d (t + n) f.
Proof.
  induction n as [|n IH]; intros Hn.
  - simpl. by rewrite Nat.sub_0_r, Nat.add_0_r.
  - unfold Waveform.elapse in *. simpl. rewrite IH by lia.
    replace (r - n) with (S (S (r - S (S n)))) by lia.
    rewrite ms_wait.
    replace (S (r - S (S n))) with (r - S n) by lia.
    by replace (S (t + n)) with (t + S n) by lia.
Qed.

(** From a count of [r] ms left, the callback runs after exactly [r]
    ms and the interval is re-armed with its full period. *)
Lemma elapse_to_tick p bars id nid cl d t f (r : nat) :
  1 <= r ->
  elapse r (Waveform.State p (Some bars)
              [(id, Waveform.Interval 100 r true)] nid cl d t f)
  = Waveform.State p
      (Some (map (fun i => Some (random (d + i) * 100)%Q)
                 (seq 0 (length bars))))
      [(id, Waveform.Interval 100 100 true)] nid cl
      (d + length bars) (t + r) (f ++ [t + r]).
Proof.
  intros Hr. destruct r as [|n]; [lia|].
  change (elapse (S n) ?st) with (ms (elapse n st)).
  rewrite elapse_wait_tick by lia.
  replace (S n - n) with 1 by lia. rewrite ms_tick.
  by replace (S (t + n)) with (t + S n) by lia.
Qed.

Lemma elapse_add (a b : nat) (st : Waveform.state) :
  elapse (a + b) st = elapse a (elapse b st).
Proof. unfold Waveform.elapse. apply Nat.iter_add. Qed.

(** After the first tick, one more every 100 ms. *)
Lemma elapse_ticks (k : nat) : forall p bars id nid cl d t f (r : nat),
  1 <= r ->
  exists bars' d',
    length bars' = length bars /\
    elapse (r + 100 * k)
      (Waveform.State p (Some bars)
         [(id, Waveform.Interval 100 r true)] nid cl d t f)
    = Waveform.State p (Some bars')
        [(id, Waveform.Interval 100 100 true)] nid cl d'
        (t + r + 100 * k)
        (f ++ map (fun i => t + r + 100 * i) (seq 0 (S k))).
Proof.
  induction k as [|k IH]; intros p bars id nid cl d t f r Hr.
  - rewrite Nat.mul_0_r, !Nat.add_0_r. rewrite elapse_to_tick by done.
    eexists _, _. split; [|simpl; by rewrite !Nat.add_0_r].
    by rewrite length_map, length_seq.
  - destruct (IH p bars id nid cl d t f r Hr) as (bars' & d' & Hl & E).
    replace (r + 100 * S k) with (100 + (r + 100 * k)) by lia.
    rewrite elapse_add, E. rewrite elapse_to_tick by lia.
    eexists _, _. split.
    { rewrite length_map, length_seq. exact Hl. }
    f_equal; [lia|].
    rewrite <- app_assoc. f_equal.
    rewrite (seq_S (S k)), map_app. simpl. do 3 f_equal. lia.
Qed.

(** *** The invariant *)

Lemma wave_inv_mount (p : bool) : Waveform.inv (Waveform.mount p).
Proof.
  split.
  - exists (replicate Waveform.barCount None).
    split; [by destruct p|]. by rewrite length_replicate.
  - destruct p; [right|left].
    + exists 0, 100. repeat split; try done; lia.
    + done.
Qed.

Lemma wave_inv_render (p : bool) (st : Waveform.state) :
  Waveform.inv st -> Waveform.inv (Waveform.render p st).
Proof.
  intros Hinv. unfold Waveform.render. case_bool_decide as Hp; [done|].
  destruct st as [pl ct ivs nid cl d t f].
  destruct Hinv as [(bars & Hc & Hl) [(Hpl & Hi & Hcl) | (id & r & Hpl & Hi & Hcl & Hr)]];
    simpl in *; subst.
  - destruct p; [|done]. split; [by exists bars|].
    right. exists nid, 100. repeat split; try done; lia.
  - destruct p; [done|]. split; [by exists bars|]. left.
    unfold Waveform.runCleanup, Waveform.effect, Waveform.clearInterval.
    simpl. rewrite filter_cons, filter_nil. simpl.
    destruct (decide (id ≠ id)); [done|]. done.
Qed.

Lemma wave_inv_ms (st : Waveform.state) :
  Waveform.inv st -> Waveform.inv (ms st).
Proof.
  intros Hinv. destruct st as [pl ct ivs nid cl d t f].
  destruct Hinv as [(bars & Hc & Hl) [(Hpl & Hi & Hcl) | (id & r & Hpl & Hi & Hcl & Hr)]];
    simpl in *; subst.
  - split; [by exists bars|]. by left.
  - destruct r as [|[|r]]; [lia| |].
    + rewrite ms_tick. split.
      * eexists. split; [done|]. by rewrite length_map, length_seq.
      * right. exists id, 100. repeat split; try done; lia.
    + rewrite ms_wait. split; [by exists bars|].
      right. exists id, (S r). repeat split; try done; lia.
Qed.

Lemma wave_inv_reachable (st : Waveform.state) :
  Waveform.reachable random st -> Waveform.inv st.
Proof.
  intros (p & evs & ->).
  assert (H : forall st0, Waveform.inv st0 ->
                Waveform.inv (Waveform.run random evs st0)).
  { induction evs as [|e evs IH]; intros st0 H0; simpl; [done|].
    apply IH. destruct e; simpl; [by apply wave_inv_render|by apply wave_inv_ms]. }
  apply H, wave_inv_mount.
Qed.

End WaveformFacts.

Lemma sampleRandom_range (n : nat) :
  (0 <= Waveform.sampleRandom n)%Q /\ (Waveform.sampleRandom n < 1)%Q.
Proof.
  unfold Waveform.sampleRandom, Qle, Qlt. simpl.
  assert (n * 37 mod 100 < 100) by (apply Nat.mod_upper_bound; lia).
  lia.
Qed.

Section WaveformClaims.

Variable random : nat -> Q.

Abbreviation ms := (Waveform.ms random).
Abbreviation elapse := (Waveform.elapse random).

(** The [else] branch of [updateBars] never runs: every live interval
    was created by a render with [playing = true]. *)
Lemma updateBars_closure_playing (st : Waveform.state) :
  Waveform.reachable random st ->
  Forall (fun p => Waveform.closure_playing p.2 = true)
         (Waveform.intervals st).
Proof.
  intros Hr. destruct (wave_inv_reachable random st Hr)
    as [_ [(_ & -> & _) | (id & r & _ & -> & _)]]; repeat constructor.
Qed.

(** Leaving [playing] clears the interval and writes no bar. *)
Lemma render_false_freezes (st : Waveform.state) :
  Waveform.reachable random st -> Waveform.playing st = true ->
  Waveform.idle (Waveform.render false st) /\
  Waveform.container (Waveform.render false st) = Waveform.container st /\
  Waveform.fired (Waveform.render false st) = Waveform.fired st.
Proof.
  intros Hr Hp. destruct st as [pl ct ivs nid cl d t f].
  destruct (wave_inv_reachable random _ Hr)
    as [(bars & Hc & Hl) [(Hpl & _) | (id & r & Hpl & Hi & Hcl & Hb)]];
    simpl in *; subst; [done|].
  unfold Waveform.render, Waveform.runCleanup, Waveform.effect,
    Waveform.clearInterval. simpl.
  rewrite filter_cons, filter_nil. simpl.
  destruct (decide (id ≠ id)); done.
Qed.

Lemma render_true_starts (st : Waveform.state) :
  Waveform.reachable random st -> Waveform.playing st = false ->
  Waveform.ticking (Waveform.render true st) (Waveform.nextId st) 100 /\
  Waveform.container (Waveform.render true st) = Waveform.container st /\
  Waveform.now (Waveform.render true st) = Waveform.now st /\
  Waveform.fired (Waveform.render true st) = Waveform.fired st.
Proof.
  intros Hr Hp. destruct st as [pl ct ivs nid cl d t f].
  destruct (wave_inv_reachable random _ Hr)
    as [(bars & Hc & Hl) [(Hpl & Hi & Hcl) | (id & r & Hpl & _)]];
    simpl in *; subst; [|done].
  unfold Waveform.render, Waveform.ticking. simpl.
  repeat split; try done; lia.
Qed.

(** C8: while [playing] is off no tick fires and no bar changes; when
    it is switched on an interval of 100 ms is armed; while it is on,
    the next tick comes within 100 ms and then one every 100 ms; and
    each tick writes all 64 bars, bar [i] getting its own draw of
    [Math.random], a fraction in [0, 1], as a height in percent. *)
Theorem playing_redraws_every_100ms (st : Waveform.state) :
  (forall n, (0 <= random n)%Q /\ (random n < 1)%Q) ->
  Waveform.reachable random st ->
  (Waveform.playing st = false ->
     forall n, Waveform.fired (elapse n st) = Waveform.fired st /\
               Waveform.container (elapse n st) = Waveform.container st) /\
  (Waveform.playing st = false ->
     Waveform.ticking (Waveform.render true st) (Waveform.nextId st) 100) /\
  (Waveform.playing st = true ->
     exists id r, Waveform.ticking st id r /\
       forall k, Waveform.fired (elapse (r + 100 * k) st) =
                 (Waveform.fired st ++
                  map (fun i => Waveform.now st + r + 100 * i)
                      (seq 0 (S k)))%list) /\
  (Waveform.playing st = true ->
     Waveform.fired (ms st) <> Waveform.fired st ->
     exists bars,
       Waveform.container (ms st) = Some bars /\
       length bars = 64 /\
       Waveform.draws (ms st) = Waveform.draws st + 64 /\
       forall i, i < 64 ->
         exists a, a = random (Waveform.draws st + i) /\
                   (0 <= a)%Q /\ (a <= 1)%Q /\
                   bars !! i = Some (Some (a * 100)%Q)).
Proof.
  intros Hrange Hr.
  assert (Hinv := wave_inv_reachable random st Hr).
  split; [|split; [|split]].
  - intros Hp n.
    destruct Hinv as [_ [(_ & Hi & _) | (id & r & Hpl & _)]]; [|congruence].
    by rewrite (elapse_idle random n st Hi).
  - intros Hp. by apply render_true_starts.
  - intros Hp.
    destruct st as [pl ct ivs nid cl d t f].
    destruct Hinv as [(bars & Hc & Hl) [(Hpl & _) | (id & r & Hpl & Hi & Hcl & Hb)]];
      cbn [Waveform.playing Waveform.container Waveform.intervals
           Waveform.cleanup Waveform.fired Waveform.now Waveform.draws] in *;
      subst; [done|].
    exists id, r. split; [repeat split; try done; lia|].
    intros k.
    destruct (elapse_ticks random k true bars id nid (Some id) d t f r)
      as (bars' & d' & _ & E); [lia|].
    by rewrite E.
  - intros Hp Hf.
    destruct st as [pl ct ivs nid cl d t f].
    destruct Hinv as [(bars & Hc & Hl) [(Hpl & _) | (id & r & Hpl & Hi & Hcl & Hb)]];
      cbn [Waveform.playing Waveform.container Waveform.intervals
           Waveform.cleanup Waveform.fired Waveform.now Waveform.draws] in *;
      subst; [done|].
    destruct r as [|[|r]]; [lia| |by rewrite ms_wait in Hf].
    rewrite ms_tick. simpl. rewrite Hl.
    eexists. split; [done|]. split; [by rewrite length_map, length_seq|].
    split; [done|]. intros i Hi.
    exists (random (d + i)). split; [done|].
    destruct (Hrange (d + i)) as [H0 H1].
    split; [done|]. split; [by apply Qlt_le_weak|].
    rewrite list_lookup_fmap.
    by rewrite (lookup_seq_lt 0 Waveform.barCount i Hi).
Qed.

End WaveformClaims.

Lemma playing_redraws_every_100ms_witness :
  (forall n, (0 <= Waveform.sampleRandom n)%Q /\
             (Waveform.sampleRandom n < 1)%Q) /\
  Waveform.reachable Waveform.sampleRandom (Waveform.mount false) /\
  (Waveform.playing (Waveform.mount false) = false ->
   Waveform.ticking (Waveform.render true (Waveform.mount false))
     (Waveform.nextId (Waveform.mount false)) 100).
Proof.
  split; [exact sampleRandom_range|].
  split; [by exists false, []|].
  apply (playing_redraws_every_100ms Waveform.sampleRandom
           (Waveform.mount false) sampleRandom_range
           (ex_intro _ false (ex_intro _ [] eq_refl))).
Defined.

Lemma stop_playing_stops_only (random : nat -> Q) (st : Waveform.state) :
  Waveform.reachable random st -> Waveform.playing st = true ->
  Waveform.playing (Waveform.render false st) = false /\
  Waveform.intervals (Waveform.render false st) = [] /\
  (forall n,
     Waveform.fired (Waveform.elapse random n (Waveform.render false st))
       = Waveform.fired st /\
     Waveform.container (Waveform.elapse random n (Waveform.render false st))
       = Waveform.container st).
Proof.
  intros Hr Hp.
  destruct (render_false_freezes _ st Hr Hp) as ((Hpl & Hi & Hcl) & Hc & Hf).
  split; [exact Hpl|]. split; [exact Hi|].
  intros n. rewrite (elapse_idle _ n _ Hi).
  cbn [Waveform.fired Waveform.container]. by rewrite Hc, Hf.
Qed.

Lemma sample_reachable :
  Waveform.reachable Waveform.sampleRandom
    (Waveform.run Waveform.sampleRandom (replicate 100 Waveform.Ms)
       (Waveform.mount true)).
Proof. exists true, (replicate 100 Waveform.Ms). reflexivity. Qed.

Lemma sample_playing :
  Waveform.playing
    (Waveform.run Waveform.sampleRandom (replicate 100 Waveform.Ms)
       (Waveform.mount true)) = true.
Proof. vm_compute. reflexivity. Qed.

(** C2: the transition of [playing] from true to false does clear the
    interval, but it does not write the bars: after one tick of the
    sample run bar 1 stands at 37%, and it still does once playing is
    switched off, however long one waits.  The branch of [updateBars]
    that would write 20% belongs to an interval that is never armed
    with [playing] off. *)
Theorem stop_playing_keeps_last_heights :
  let st := Waveform.run Waveform.sampleRandom (replicate 100 Waveform.Ms)
              (Waveform.mount true) in
  let st' := Waveform.render false st in
  Waveform.playing st = true /\
  Waveform.playing st' = false /\
  Waveform.intervals st' = [] /\
  (forall n,
     Waveform.fired (Waveform.elapse Waveform.sampleRandom n st')
       = Waveform.fired st /\
     Waveform.container (Waveform.elapse Waveform.sampleRandom n st')
       = Waveform.container st) /\
  exists bars b,
    Waveform.container st' = Some bars /\ bars !! 1 = Some b /\
    (Waveform.shownHeight b == 37)%Q /\
    ~ (Waveform.shownHeight b == Waveform.idleHeight)%Q.
Proof.
  cbv zeta. split; [exact sample_playing|].
  destruct (stop_playing_stops_only _ _ sample_reachable sample_playing)
    as (A & B & C).
  split; [exact A|]. split; [exact B|]. split; [exact C|].
  eexists _, _.
  split; [vm_compute; reflexivity|].
  split; [reflexivity|]. split; [reflexivity|].
  intros H. vm_compute in H. discriminate H.
Qed.

(* ===================================================================== *)
(** * Further properties of the page                                      *)
(* ===================================================================== *)

(** ** Invariants of the event loop *)

Lemma run_invariant (P : world -> Prop) :
  (forall e w, inv w -> P w -> P (step e w)) ->
  forall evs w, inv w -> P w -> P (run evs w).
Proof.
  intros Hstep evs. induction evs as [|e evs IH]; intros w Hi Hp; simpl.
  - exact Hp.
  - apply IH; [by apply inv_step|by apply Hstep].
Qed.

Lemma reachable_invariant (P : world -> Prop) :
  P initial ->
  (forall e w, inv w -> P w -> P (step e w)) ->
  forall w, reachable w -> P w.
Proof.
  intros H0 Hstep w [evs ->].
  apply run_invariant; [exact Hstep|exact inv_initial|exact H0].
Qed.

Lemma commit_state (prev : option string) (w : world) :
  state (commit prev w) = state w.
Proof.
  unfold commit. case_bool_decide; [done|].
  unfold teardown. destruct (cleanup w); simpl;
    (destruct (jobId (state w)) as [j|]; simpl; [|done]);
    by destruct (JS.truthy_string j).
Qed.

(** X1: the page never has two requests or timers outstanding.  While
    one is, the run is flagged as generating with no result, a click on
    the submit button does nothing, and the request or timer belongs to
    the job whose id is stored; a timer has between 1 and 2000 ms
    left. *)
Theorem one_request_in_flight (w : world) :
  reachable w ->
  length (tasks w) <= 1 /\
  (tasks w <> [] ->
     generatingPodcast (state w) = true /\
     podcastGenerated (state w) = false /\
     step ClickGenerate w = w) /\
  (forall j, GetPending j ∈ tasks w -> jobId (state w) = Some j) /\
  (forall r j, Timer r j ∈ tasks w ->
     jobId (state w) = Some j /\ 1 <= r <= 2000).
Proof.
  intros Hr. destruct (inv_reachable w Hr) as [_ H].
  assert (Hclick : generatingPodcast (state w) = true ->
                   step ClickGenerate w = w).
  { intros G. unfold step, segment, submitDisabled. rewrite G. simpl.
    by apply commit_same. }
  destruct H as [E | (G & P & [[E J] | (j & J & [E | (r & Hb & E)])])];
    rewrite E; (split; [simpl; lia|]);
    (split; [first [intros _; by auto | intros Hne; by destruct Hne]|]).
  - split; [intros j Hj|intros r j Hj]; by apply elem_of_nil in Hj.
  - split; [intros j Hj|intros r j Hj];
      apply list_elem_of_singleton in Hj; discriminate Hj.
  - split; [intros j' Hj|intros r j' Hj];
      apply list_elem_of_singleton in Hj; by inversion Hj; subst.
  - split; [intros j' Hj|intros r' j' Hj];
      apply list_elem_of_singleton in Hj; inversion Hj; subst.
    split; [done|lia].
Qed.

Lemma one_request_in_flight_witness :
  reachable Scenario.waiting /\
  length (tasks Scenario.waiting) <= 1.
Proof.
  split; [exact waiting_reachable|].
  apply (one_request_in_flight Scenario.waiting waiting_reachable).
Defined.

(** *** A job id that is the empty string *)

Lemma stalled_step (e : event) (w : world) :
  tasks w = [] -> generatingPodcast (state w) = true ->
  tasks (step e w) = [] /\
  generatingPodcast (state (step e w)) = true /\
  submissions (log (step e w)) = submissions (log w) /\
  (forall j, queries j (log (step e w)) = queries j (log w)).
Proof.
  intros Ht G.
  assert (He : e = ClickGenerate \/ notClick e).
  { destruct e; first [by left | by right]. }
  destruct He as [->|He].
  - assert (E : step ClickGenerate w = w).
    { unfold step, segment, submitDisabled. rewrite G. simpl.
      by apply commit_same. }
    by rewrite E.
  - destruct (quiet_step e w Ht He) as (T & _ & G' & _ & _ & S & _ & Q).
    repeat split; try done. by rewrite G'.
Qed.

Lemma stalled_run (evs : list event) (w : world) :
  tasks w = [] -> generatingPodcast (state w) = true ->
  tasks (run evs w) = [] /\
  generatingPodcast (state (run evs w)) = true /\
  submissions (log (run evs w)) = submissions (log w) /\
  (forall j, queries j (log (run evs w)) = queries j (log w)).
Proof.
  revert w. induction evs as [|e evs IH]; intros w Ht G; simpl; [done|].
  destruct (stalled_step e w Ht G) as (T & G' & S & Q).
  destruct (IH (step e w) T G') as (T' & G'' & S' & Q').
  repeat split; try done; [congruence|]. intros j. by rewrite Q', Q.
Qed.

(** X2: if the service answers the submission with an ok response whose
    [job_id] is the empty string, the effect returns at [if (!jobId)]:
    no status query is ever sent, and since nothing clears the
    generating flag, the submit button stays disabled and the page
    sends no request at all, whatever the user does afterwards. *)
Theorem empty_job_id_stalls (w : world) (i : nat) (evs : list event) :
  reachable w -> tasks w !! i = Some PostPending ->
  let w' := step (PostSettles i (Response true (Some ""))) w in
  jobId (state w') = Some "" /\
  tasks w' = [] /\
  tasks (run evs w') = [] /\
  generatingPodcast (state (run evs w')) = true /\
  submitDisabled (state (run evs w')) = true /\
  submissions (log (run evs w')) = submissions (log w) /\
  (forall j, queries j (log (run evs w')) = queries j (log w)).
Proof.
  intros Hr Hi.
  destruct (reachable_sole_task w i _ Hr Hi) as (-> & Ht & Hc & G & _).
  destruct (inv_reachable w Hr) as [_ H].
  assert (J : jobId (state w) = None).
  { destruct H as [E | (_ & _ & [[_ J] | (j & _ & [E | (r & _ & E)])])];
      try done; rewrite Ht in E; discriminate E. }
  destruct w as [[t c g pg ip ji js pr au] ts lg cl].
  simpl in Ht, Hc, G, J. subst ts cl g ji.
  assert (E : step (PostSettles 0 (Response true (Some "")))
                (World (UI t c true pg ip None js pr au) [PostPending] lg None)
              = World (UI t c true pg ip (Some "") js pr au) []
                  (lg ++ [ToastSuccess "Podcast generation started"]) None).
  { unfold step, segment. simpl. by rewrite commit_changed. }
  cbv zeta. rewrite E. clear E.
  split; [done|]. split; [done|].
  match goal with
  | |- context [run evs ?w0] =>
      destruct (stalled_run evs w0 eq_refl eq_refl) as (T & G & S & Q)
  end.
  split; [exact T|]. split; [exact G|].
  split; [unfold submitDisabled; by rewrite G|].
  split.
  - rewrite S. simpl. rewrite submissions_snoc. simpl. lia.
  - intros j. rewrite Q. simpl. rewrite queries_snoc.
    destruct (decide _); [done|lia].
Qed.

Lemma empty_job_id_stalls_witness :
  reachable Scenario.submitted /\
  tasks Scenario.submitted !! 0 = Some PostPending /\
  jobId (state (step (PostSettles 0 (Response true (Some "")))
                  Scenario.submitted)) = Some "".
Proof.
  split; [exact submitted_reachable|].
  split; [reflexivity|].
  apply (empty_job_id_stalls Scenario.submitted 0 [ClickGenerate]
           submitted_reachable eq_refl).
Defined.

(** ** The result shown to the user *)

Lemma resultInv_step (e : event) (w : world) :
  inv w -> Page.resultInv w -> Page.resultInv (step e w).
Proof.
  destruct w as [[t c g pg ip ji js pr au] ts lg cl].
  unfold inv, Page.resultInv; simpl. intros [-> H] R.
  destruct e; unfold step, segment; simpl.
  - (* TypeTopic *) settle. done.
  - (* SelectColor *) case_bool_decide; settle; done.
  - (* ClickGenerate *)
    unfold submitDisabled; simpl.
    destruct g; simpl; [settle; done|].
    destruct H as [-> | (? & _)]; [|done].
    unfold handleGeneratePodcast; simpl.
    destruct (JS.truthy_utf16 (JS.trim t)); simpl; [|settle; done].
    destruct ji as [j|]; [rewrite commit_changed by done|]; settle; done.
  - (* ClickPlayPause *)
    unfold togglePlayPause; simpl. destruct pg; settle; done.
  - (* ClickDownload *)
    unfold downloadPodcast; simpl.
    destruct pg; simpl; [|settle; done].
    destruct (videoRef _); settle; done.
  - (* PostSettles *)
    destruct H as [-> | (-> & -> & [[-> ->] | (j & -> & [-> | (r' & Hr & ->)])])].
    + settle. done.
    + destruct i as [|i]; [|settle; done].
      destruct r as [|[] [id|]]; simpl; try (settle; done).
      rewrite commit_changed by done. simpl.
      destruct (JS.truthy_string id); simpl; done.
    + destruct i as [|i]; settle; done.
    + destruct i as [|i]; settle; done.
  - (* GetSettles *)
    destruct H as [-> | (-> & -> & [[-> ->] | (j & -> & [-> | (r' & Hr & ->)])])].
    + settle. done.
    + destruct i as [|i]; settle; done.
    + destruct i as [|i]; [|settle; done].
      destruct r as [|[] [data|]]; simpl; try (settle; done).
      destruct (String.eqb (Wire.status data) "completed") eqn:Ec.
      { settle. intros _. apply String.eqb_eq in Ec.
        split; [done|]. split; [done|]. by exists data. }
      destruct (String.eqb (Wire.status data) "failed"); settle; done.
    + destruct i as [|i]; settle; done.
  - (* Ms *)
    destruct H as [-> | (-> & -> & [[-> ->] | (j & -> & [-> | (r' & Hr & ->)])])];
      unfold ms; simpl; try (settle; done).
    destruct (r' <=? 1)%nat; settle; done.
Qed.

Lemma resultInv_reachable (w : world) : reachable w -> Page.resultInv w.
Proof.
  apply (reachable_invariant Page.resultInv); [|exact resultInv_step].
  intros H. discriminate H.
Qed.

(** X3: whenever the page flags a result ([podcastGenerated]), the run
    is over (not generating, nothing suspended) and the state cells
    hold the completed snapshot: [jobStatus] is a snapshot whose status
    is "completed", [audioUrl] is its [audio_url] and the progress is
    its progress times 100.  In particular the generating flag and the
    result flag are never on together. *)
Theorem result_is_completed_snapshot (w : world) :
  reachable w -> podcastGenerated (state w) = true ->
  generatingPodcast (state w) = false /\
  tasks w = [] /\
  exists d,
    jobStatus (state w) = Some d /\
    Wire.status d = "completed" /\
    audioUrl (state w) = Wire.audio_url d /\
    progress (state w) = (Wire.progress d * 100)%Q.
Proof. intros Hr Hp. exact (resultInv_reachable w Hr Hp). Qed.

Lemma finished_reachable : reachable Page.finished.
Proof. by exists Page.finishedEvents. Qed.

Lemma result_is_completed_snapshot_witness :
  reachable Page.finished /\
  podcastGenerated (state Page.finished) = true /\
  generatingPodcast (state Page.finished) = false.
Proof.
  split; [exact finished_reachable|].
  assert (H : podcastGenerated (state Page.finished) = true)
    by (vm_compute; reflexivity).
  split; [exact H|].
  exact (proj1 (result_is_completed_snapshot Page.finished
                  finished_reachable H)).
Defined.

(** X4: a snapshot with status "completed" ends the run with the
    result exposed: the generating flag is cleared, the result flag is
    set, [audioUrl] is the snapshot's [audio_url], one success toast is
    shown and nothing stays suspended.  From then on the play button
    toggles [isPlaying], and the download button starts a download of
    the snapshot's [video_url] under the service's base address if
    that url is present and not empty, and does nothing otherwise. *)
Theorem completed_exposes_result
    (w : world) (i : nat) (j : string) (data : Wire.JobStatus) :
  reachable w -> tasks w !! i = Some (GetPending j) ->
  Wire.status data = "completed" ->
  let w' := step (GetSettles i (Response true (Some data))) w in
  generatingPodcast (state w') = false /\
  podcastGenerated (state w') = true /\
  jobStatus (state w') = Some data /\
  audioUrl (state w') = Wire.audio_url data /\
  tasks w' = [] /\
  log w' = (log w ++ [ToastSuccess "Podcast generated successfully"])%list /\
  isPlaying (state (step ClickPlayPause w')) = negb (isPlaying (state w)) /\
  match Wire.video_url data with
  | Some (String a u) =>
      log (step ClickDownload w')
      = (log w' ++ [Download ("http://localhost:8000" ++ String a u);
                    ToastSuccess "Podcast downloading..."])%list
  | _ => step ClickDownload w' = w'
  end.
Proof.
  intros Hr Hi Hs.
  destruct (reachable_sole_task w i _ Hr Hi) as (-> & Ht & Hc & _).
  cbv zeta. rewrite (step_GetSettles w 0 j _ Hi).
  destruct w as [[t c g pg ip ji js pr au] ts lg cl].
  simpl in Ht, Hc. subst ts cl.
  unfold checkStatus_resume. rewrite Hs. simpl.
  repeat (split; [done|]).
  split.
  - unfold step, segment, togglePlayPause. simpl. by rewrite commit_same.
  - unfold step, segment, downloadPodcast, videoRef. simpl.
    destruct (Wire.video_url data) as [[|a u]|]; simpl;
      rewrite commit_same by done; simpl; try done.
    by rewrite <- app_assoc.
Qed.

Lemma completed_exposes_result_witness :
  reachable Scenario.polling /\
  tasks Scenario.polling !! 0 = Some (GetPending "abc123") /\
  Wire.status Page.completed = "completed" /\
  podcastGenerated
    (state (step (GetSettles 0 (Response true (Some Page.completed)))
              Scenario.polling))
  = true.
Proof.
  split; [exact polling_reachable|].
  split; [reflexivity|]. split; [reflexivity|].
  apply (completed_exposes_result Scenario.polling 0 "abc123" Page.completed
           polling_reachable eq_refl eq_refl).
Defined.

(** X5: a click on the download button never changes the state or what
    is suspended.  It either does nothing at all, or it starts exactly
    one download, and then the stored snapshot is a completed one and
    the link is the base address followed by that snapshot's non-empty
    [video_url]. *)
Theorem download_only_of_completed (w : world) :
  reachable w ->
  step ClickDownload w = w \/
  exists d u,
    jobStatus (state w) = Some d /\
    Wire.status d = "completed" /\
    Wire.video_url d = Some u /\ u <> "" /\
    step ClickDownload w =
    World (state w) (tasks w)
      (log w ++ [Download ("http://localhost:8000" ++ u);
                 ToastSuccess "Podcast downloading..."])
      (cleanup w).
Proof.
  intros Hr. assert (R := resultInv_reachable w Hr).
  destruct w as [[t c g pg ip ji js pr au] ts lg cl].
  unfold Page.resultInv in R. simpl in R.
  unfold step, segment, downloadPodcast. simpl.
  destruct pg; simpl; [|left; by rewrite commit_same].
  destruct (R eq_refl) as (_ & _ & d & -> & Hs & _).
  unfold videoRef. simpl.
  destruct (Wire.video_url d) as [[|a u]|] eqn:Ev; simpl;
    try (left; by rewrite commit_same).
  right. exists d, (String a u). rewrite commit_same by done. simpl.
  repeat split; try done. unfold emit. simpl. by rewrite <- app_assoc.
Qed.

Lemma download_only_of_completed_witness :
  reachable Scenario.waiting /\
  (step ClickDownload Scenario.waiting = Scenario.waiting \/
   exists d u,
     jobStatus (state Scenario.waiting) = Some d /\
     Wire.status d = "completed" /\
     Wire.video_url d = Some u /\ u <> "" /\
     step ClickDownload Scenario.waiting =
     World (state Scenario.waiting) (tasks Scenario.waiting)
       (log Scenario.waiting ++ [Download ("http://localhost:8000" ++ u);
                                 ToastSuccess "Podcast downloading..."])
       (cleanup Scenario.waiting)).
Proof.
  split; [exact waiting_reachable|].
  apply (download_only_of_completed Scenario.waiting waiting_reachable).
Defined.

(** X6: what the preview card shows agrees with the progress block and
    the submit button: the spinner is shown exactly while the progress
    block is, and exactly while the button reads "Generating...";
    the title is shown exactly when the play and download buttons are
    enabled, and then neither the spinner nor the progress block is.
    The status text of the progress block is never empty. *)
Theorem preview_agrees_with_progress (w : world) :
  reachable w ->
  (Page.progressVisible (state w) = true <-> Page.preview (state w) = Page.Spinner) /\
  (Page.submitLabel (state w) = "Generating..."
     <-> Page.preview (state w) = Page.Spinner) /\
  (Page.resultControlsDisabled (state w) = false
     <-> Page.preview (state w) = Page.Title (topic (state w))) /\
  (Page.preview (state w) = Page.Title (topic (state w)) ->
     Page.progressVisible (state w) = false) /\
  Page.statusLabel (state w) <> "".
Proof.
  intros Hr. assert (R := resultInv_reachable w Hr).
  destruct w as [[t c g pg ip ji js pr au] ts lg cl].
  unfold Page.resultInv in R. simpl in R.
  unfold Page.progressVisible, Page.preview, Page.submitLabel,
    Page.resultControlsDisabled, Page.statusLabel. simpl.
  assert (G : pg = true -> g = false) by (intros H; by destruct (R H)).
  clear R.
  repeat split.
  - intros ->. destruct pg; [by specialize (G eq_refl)|done].
  - destruct pg, g; done.
  - destruct g; [|done]. intros _.
    destruct pg; [by specialize (G eq_refl)|done].
  - destruct pg, g; done.
  - destruct pg; [done|discriminate].
  - destruct pg; [done|by destruct g].
  - destruct pg; [intros _; by apply G|by destruct g].
  - destruct js as [d|]; [|done].
    by destruct (Wire.status d).
Qed.

Lemma preview_agrees_with_progress_witness :
  reachable Scenario.waiting /\
  Page.preview (state Scenario.waiting) = Page.Spinner /\
  (Page.progressVisible (state Scenario.waiting) = true
     <-> Page.preview (state Scenario.waiting) = Page.Spinner).
Proof.
  split; [exact waiting_reachable|].
  split; [reflexivity|].
  apply (preview_agrees_with_progress Scenario.waiting waiting_reachable).
Defined.

(** ** The requests the page sends *)

Lemma resolveHex_preset (name : string) :
  name ∈ ColorPalette.presets ->
  exists h, h ∈ Page.hexColors /\ ColorPalette.resolveHex name = JS.VString h.
Proof.
  unfold ColorPalette.presets, Page.hexColors.
  rewrite !elem_of_cons, elem_of_nil.
  intros [->|[->|[->|[->|[->|[->|[]]]]]]]; eexists;
    (split; [|vm_compute; reflexivity]);
    rewrite !elem_of_cons; auto 10.
Qed.

Lemma truthy_string_nonempty (s : string) :
  JS.truthy_string s = true -> s <> "".
Proof. by destruct s. Qed.

Lemma truthy_trim_not_blank (t : JS.utf16) :
  JS.truthy_utf16 (JS.trim t) = true -> ~ blank t.
Proof. intros Ht Hb. by rewrite (trim_blank t Hb) in Ht. Qed.

Ltac requests_close :=
  solve
    [ repeat first
        [ done
        | progress simpl
        | apply Forall_nil_2
        | apply Forall_cons_2
        | apply Forall_app_2
        | split ] ].

Lemma requestsInv_step (e : event) (w : world) :
  inv w -> Page.requestsInv w -> Page.requestsInv (step e w).
Proof.
  destruct w as [[t c g pg ip ji js pr au] ts lg cl].
  unfold inv, Page.requestsInv; simpl. intros [-> H] (Hc & Hl & Ht).
  destruct e; unfold step, segment; simpl.
  - (* TypeTopic *) settle. done.
  - (* SelectColor *) case_bool_decide; settle; done.
  - (* ClickGenerate *)
    unfold submitDisabled; simpl.
    destruct g; simpl; [settle; done|].
    destruct H as [-> | (? & _)]; [|done].
    unfold handleGeneratePodcast; simpl.
    destruct (JS.truthy_utf16 (JS.trim t)) eqn:Et; simpl; [|settle].
    + assert (W : Page.wellFormed (FetchPost t (ColorPalette.resolveHex c))).
      { split; [by apply truthy_trim_not_blank|by apply resolveHex_preset]. }
      destruct ji as [j|]; [rewrite commit_changed by done|]; settle;
        requests_close.
    + requests_close.
  - (* ClickPlayPause *)
    unfold togglePlayPause; simpl. destruct pg; settle; done.
  - (* ClickDownload *)
    unfold downloadPodcast; simpl.
    destruct pg; simpl; [|settle; done].
    destruct (videoRef _); settle; requests_close.
  - (* PostSettles *)
    destruct H as [-> | (-> & -> & [[-> ->] | (j & -> & [-> | (r' & Hr & ->)])])].
    + settle. done.
    + destruct i as [|i]; [|settle; done].
      destruct r as [|[] [id|]]; simpl; try (settle; requests_close).
      rewrite commit_changed by done. simpl.
      destruct (JS.truthy_string id) eqn:Ei; simpl; [|requests_close].
      apply truthy_string_nonempty in Ei. requests_close.
    + destruct i as [|i]; settle; done.
    + destruct i as [|i]; settle; done.
  - (* GetSettles *)
    destruct H as [-> | (-> & -> & [[-> ->] | (j & -> & [-> | (r' & Hr & ->)])])].
    + settle. done.
    + destruct i as [|i]; settle; done.
    + destruct i as [|i]; [|settle; done].
      assert (Hj : j <> "") by (by inversion Ht).
      destruct r as [|[] [data|]]; simpl; try (settle; requests_close).
      destruct (String.eqb (Wire.status data) "completed");
        [settle; requests_close|].
      destruct (String.eqb (Wire.status data) "failed"); settle;
        requests_close.
    + destruct i as [|i]; settle; done.
  - (* Ms *)
    destruct H as [-> | (-> & -> & [[-> ->] | (j & -> & [-> | (r' & Hr & ->)])])];
      unfold ms; simpl; try (settle; done).
    assert (Hj : j <> "") by (by inversion Ht).
    destruct (r' <=? 1)%nat; settle; requests_close.
Qed.

Lemma requestsInv_reachable (w : world) : reachable w -> Page.requestsInv w.
Proof.
  apply (reachable_invariant Page.requestsInv); [|exact requestsInv_step].
  split; [|split]; constructor.
Qed.

(** X7: every request the page has sent is well formed.  Each
    submission carries a topic that is not blank and
    one of the six hex colors of [colorMap] (the selected color is
    always a preset, so neither the [||] default nor an inherited
    member is ever sent); each status query names a job id that is not
    the empty string. *)
Theorem requests_are_well_formed (w : world) :
  reachable w ->
  waveformColor (state w) ∈ ColorPalette.presets /\
  (forall t c, FetchPost t c ∈ log w ->
     ~ blank t /\ exists h, h ∈ Page.hexColors /\ c = JS.VString h) /\
  (forall j, FetchGet j ∈ log w -> j <> "").
Proof.
  intros Hr. destruct (requestsInv_reachable w Hr) as (Hc & Hl & _).
  split; [exact Hc|].
  rewrite Forall_forall in Hl.
  split; [intros t c Hin|intros j Hin]; exact (Hl _ Hin).
Qed.

Lemma requests_are_well_formed_witness :
  reachable Scenario.waiting /\
  FetchGet "abc123" ∈ log Scenario.waiting /\
  "abc123" <> "".
Proof.
  split; [exact waiting_reachable|].
  assert (H : FetchGet "abc123" ∈ log Scenario.waiting).
  { unfold Scenario.waiting. vm_compute log. rewrite !elem_of_cons. auto. }
  split; [exact H|].
  exact (proj2 (proj2 (requests_are_well_formed Scenario.waiting
                         waiting_reachable)) "abc123" H).
Defined.

(** ** Controls *)

(** X8: the submit button is enabled exactly when no run is being
    generated and the topic has a code unit that is not white space. *)
Theorem submit_enabled_iff (s : ui) :
  submitDisabled s = false <->
  generatingPodcast s = false /\ ~ blank (topic s).
Proof.
  unfold submitDisabled. rewrite orb_false_iff, negb_false_iff.
  split; intros [G H]; (split; [exact G|]).
  - by apply truthy_trim_not_blank.
  - destruct (JS.trim (topic s)) eqn:E; [|done].
    destruct H. by apply trim_nil_iff_blank.
Qed.

(** X9: the play button is a switch that works only once a result
    exists: without a result a click changes nothing, with one it
    flips [isPlaying] and nothing else, and two clicks in a row leave
    the page as it was. *)
Theorem play_button_is_a_switch (w : world) :
  (podcastGenerated (state w) = false -> step ClickPlayPause w = w) /\
  (podcastGenerated (state w) = true ->
     step ClickPlayPause w
     = setState (setIsPlaying (negb (isPlaying (state w)))) w) /\
  step ClickPlayPause (step ClickPlayPause w) = w.
Proof.
  destruct w as [[t c g pg ip ji js pr au] ts lg cl].
  unfold step, segment, togglePlayPause. simpl.
  destruct pg; simpl; rewrite !commit_same by done; simpl;
    rewrite ?commit_same by done; simpl; repeat split; try done.
  by rewrite negb_involutive.
Qed.

(** X10: the cells the user owns are written by their own controls
    only.  The topic changes only when the user types, the color only
    when a preset is selected, [isPlaying] only by the play button
    while a result exists; and [audioUrl] is written only when a
    completed snapshot arrives: a new submission neither stops the
    animation nor clears the previous audio reference. *)
Theorem cells_change_only_by_their_controls (e : event) (w : world) :
  (topic (state (step e w)) <> topic (state w) ->
     exists text, e = TypeTopic text) /\
  (waveformColor (state (step e w)) <> waveformColor (state w) ->
     exists name, e = SelectColor name /\ name ∈ ColorPalette.presets) /\
  (isPlaying (state (step e w)) <> isPlaying (state w) ->
     e = ClickPlayPause /\ podcastGenerated (state w) = true) /\
  (audioUrl (state (step e w)) <> audioUrl (state w) ->
     exists i data,
       e = GetSettles i (Response true (Some data)) /\
       Wire.status data = "completed").
Proof.
  unfold step. rewrite commit_state.
  destruct w as [[t c g pg ip ji js pr au] ts lg cl].
  destruct e; simpl.
  - repeat split; try done. intros _. by eexists.
  - case_bool_decide; simpl; repeat split; try done.
    intros _. by eexists.
  - destruct (submitDisabled _); [done|].
    unfold handleGeneratePodcast. simpl.
    by destruct (JS.truthy_utf16 _).
  - unfold togglePlayPause. simpl. destruct pg; simpl; done.
  - unfold downloadPodcast. simpl. destruct pg; simpl; [|done].
    by destruct (videoRef _).
  - destruct (ts !! i) as [[]|]; try done.
    by destruct r as [|[] [id|]].
  - destruct (ts !! i) as [[| j |]|]; try done.
    destruct r as [|[] [data|]]; simpl; try done.
    destruct (String.eqb (Wire.status data) "completed") eqn:Ec; simpl.
    { repeat split; try done. intros _. exists i, data.
      split; [done|]. by apply String.eqb_eq. }
    by destruct (String.eqb (Wire.status data) "failed").
  - unfold ms. simpl. destruct (countDown ts) as [ts' due].
    by rewrite foldl_checkStatus_state.
Qed.

(** ** Colors *)

(** X11: what the two resolvers return, for every name.  A preset name
    gives its own class and its own hex color.  A name every object
    inherits from [Object.prototype] gives that inherited member from
    both.  Any other name gives the fallback, and the fallbacks differ:
    the bars fall back to blue while the request falls back to green
    ("#00FF00", the hex of the green preset). *)
Theorem resolvers_by_kind_of_name (name : string) :
  (name ∈ ColorPalette.presets ->
     ColorPalette.getColorClass name = JS.VString ("bg-waveform-" ++ name) /\
     exists h, ColorPalette.colorMap !! name = Some h /\
               ColorPalette.resolveHex name = JS.VString h) /\
  (name ∈ JS.ObjectPrototype ->
     ColorPalette.getColorClass name = JS.VInherited name /\
     ColorPalette.resolveHex name = JS.VInherited name) /\
  (name ∉ ColorPalette.presets -> name ∉ JS.ObjectPrototype ->
     ColorPalette.getColorClass name = ColorPalette.getColorClass "blue" /\
     ColorPalette.resolveHex name = ColorPalette.resolveHex "green").
Proof.
  split; [|split].
  - intros Hp. split; [by apply getColorClass_preset|].
    revert Hp. unfold ColorPalette.presets.
    rewrite !elem_of_cons, elem_of_nil.
    intros [->|[->|[->|[->|[->|[->|[]]]]]]]; eexists;
      split; vm_compute; reflexivity.
  - unfold JS.ObjectPrototype. rewrite !elem_of_cons, elem_of_nil.
    intros H.
    repeat (destruct H as [->|H]; [split; vm_compute; reflexivity|]).
    destruct H.
  - intros Hp Ho.
    rewrite (getColorClass_unknown name Hp Ho),
      (resolveHex_unknown name Hp Ho).
    split; vm_compute; reflexivity.
Qed.

(** ** The name of the downloaded file *)

Lemma replaceSpaceRuns_clean (inRun : bool) (s : JS.utf16) :
  Forall (fun c => JS.isWhiteSpace c = false) (Page.replaceSpaceRuns inRun s).
Proof.
  revert inRun. induction s as [|c s IH]; intros inRun; simpl; [constructor|].
  destruct (JS.isWhiteSpace c) eqn:E.
  - destruct inRun; [apply IH|]. constructor; [reflexivity|apply IH].
  - constructor; [exact E|apply IH].
Qed.

Lemma replaceSpaceRuns_length (inRun : bool) (s : JS.utf16) :
  length (Page.replaceSpaceRuns inRun s) <= length s.
Proof.
  revert inRun. induction s as [|c s IH]; intros inRun; simpl; [lia|].
  destruct (JS.isWhiteSpace c).
  - destruct inRun; simpl; [specialize (IH true)|specialize (IH true)]; lia.
  - simpl. specialize (IH false). lia.
Qed.

Lemma replaceSpaceRuns_id (inRun : bool) (s : JS.utf16) :
  Forall (fun c => JS.isWhiteSpace c = false) s ->
  Page.replaceSpaceRuns inRun s = s.
Proof.
  intros H. revert inRun. induction H as [|c s Hc _ IH]; intros inRun; simpl.
  - done.
  - rewrite Hc. by rewrite IH.
Qed.

(** X12: the file name offered for the download,
    [podcast_<topic>.mp4] with every run of white space in the topic
    replaced by one underscore, contains no white space at all and is
    at most 12 code units longer than the topic; a topic without white
    space appears in it unchanged. *)
Theorem download_name_has_no_white_space (topic : JS.utf16) :
  Forall (fun c => JS.isWhiteSpace c = false) (Page.downloadName topic) /\
  length (Page.downloadName topic) <= 12 + length topic /\
  (Forall (fun c => JS.isWhiteSpace c = false) topic ->
   Page.downloadName topic
   = ([112; 111; 100; 99; 97; 115; 116; 95]%N ++ topic
      ++ [46; 109; 112; 52]%N)%list).
Proof.
  unfold Page.downloadName. split; [|split].
  - apply Forall_app_2; [repeat constructor|].
    apply Forall_app_2; [apply replaceSpaceRuns_clean|repeat constructor].
  - rewrite !length_app. simpl.
    pose proof (replaceSpaceRuns_length false topic). lia.
  - intros H. by rewrite (replaceSpaceRuns_id false topic H).
Qed.

(** ** Whole rounds of polling *)

Lemma reachable_elapse (n : nat) (w : world) :
  reachable w -> reachable (elapse n w).
Proof.
  intros Hr. induction n as [|n IH]; [exact Hr|].
  change (elapse (S n) w) with (step Ms (elapse n w)).
  by apply reachable_step.
Qed.

Lemma pollRound_nonterminal (data : Wire.JobStatus) (j : string) (w : world) :
  tasks w = [GetPending j] -> terminal (Wire.status data) = false ->
  Page.pollRound data w
  = World (setProgress (Wire.progress data * 100)%Q
             (setJobStatus (Some data) (state w)))
      [GetPending j] (log w ++ [FetchGet j]) (cleanup w).
Proof.
  intros Ht Hn. unfold terminal in Hn.
  apply orb_false_elim in Hn as [Ec Ef].
  unfold Page.pollRound.
  rewrite (step_GetSettles w 0 j) by (by rewrite Ht).
  unfold checkStatus_resume. rewrite Ec, Ef.
  match goal with
  | |- elapse 2000 ?w0 = _ =>
      assert (Ht0 : tasks w0 = [Timer 2000 j])
        by (unfold suspend, setState, resolveTask; simpl; by rewrite Ht);
      rewrite (elapse_fire 2000 j w0 Ht0) by lia
  end.
  reflexivity.
Qed.

Lemma pollRounds_cons (data : Wire.JobStatus)
    (replies : list Wire.JobStatus) (w : world) :
  Page.pollRounds (data :: replies) w
  = Page.pollRounds replies (Page.pollRound data w).
Proof. unfold Page.pollRounds. cbn [foldl]. reflexivity. Qed.

(** X13: rounds of polling compose.  Starting with one status query in
    flight, each non-terminal reply followed by 2000 ms leaves exactly
    one query in flight again; after any number of such rounds the page
    has sent one status query per round and nothing else, is still
    generating, has reported no error, and stores the last reply. *)
Theorem polling_rounds_compose
    (replies : list Wire.JobStatus) (j : string) (w : world) :
  reachable w -> tasks w = [GetPending j] ->
  Forall (fun data => terminal (Wire.status data) = false) replies ->
  let w' := Page.pollRounds replies w in
  reachable w' /\
  tasks w' = [GetPending j] /\
  queries j (log w') = queries j (log w) + length replies /\
  submissions (log w') = submissions (log w) /\
  errorReports (log w') = errorReports (log w) /\
  generatingPodcast (state w') = generatingPodcast (state w) /\
  jobStatus (state w')
  = match last replies with
    | Some data => Some data
    | None => jobStatus (state w)
    end.
Proof.
  intros Hr Ht Hn. cbv zeta. revert w Hr Ht.
  induction Hn as [|data replies Hd _ IH]; intros w Hr Ht.
  - simpl. repeat split; try done; lia.
  - rewrite pollRounds_cons.
    assert (E := pollRound_nonterminal data j w Ht Hd).
    assert (Hr' : reachable (Page.pollRound data w)).
    { unfold Page.pollRound. by apply reachable_elapse, reachable_step. }
    assert (Ht' : tasks (Page.pollRound data w) = [GetPending j])
      by (by rewrite E).
    destruct (IH _ Hr' Ht') as (R & T & HQ & HS & HE & HG & HJ).
    split; [exact R|]. split; [exact T|].
    rewrite HQ, HS, HE, HG, HJ, E.
    cbn [log state length generatingPodcast jobStatus setProgress setJobStatus].
    rewrite queries_snoc, submissions_snoc, errorReports_snoc. simpl.
    destruct (decide (FetchGet j = FetchGet j)); [|done].
    repeat split; try lia.
    rewrite last_cons. by destruct (last replies).
Qed.

Lemma polling_rounds_compose_witness :
  reachable Scenario.polling /\
  tasks Scenario.polling = [GetPending "abc123"] /\
  Forall (fun data => terminal (Wire.status data) = false)
    [Scenario.processing; Scenario.processing] /\
  tasks (Page.pollRounds [Scenario.processing; Scenario.processing]
           Scenario.polling) = [GetPending "abc123"].
Proof.
  split; [exact polling_reachable|].
  split; [reflexivity|].
  assert (H : Forall (fun data => terminal (Wire.status data) = false)
                [Scenario.processing; Scenario.processing])
    by (repeat constructor).
  split; [exact H|].
  exact (proj1 (proj2 (polling_rounds_compose
                         [Scenario.processing; Scenario.processing]
                         "abc123" Scenario.polling polling_reachable
                         eq_refl H))).
Defined.

(** X14: what the user does while a request or timer is outstanding
    neither cancels nor duplicates it: typing, selecting a color and
    clicking any of the three buttons leave the suspended work, the
    log, the job id, the stored snapshot, the progress and the
    generating flag as they were. *)
Theorem user_input_leaves_chain (e : event) (w : world) :
  reachable w -> tasks w <> [] -> Page.userEvent e ->
  tasks (step e w) = tasks w /\
  log (step e w) = log w /\
  jobId (state (step e w)) = jobId (state w) /\
  jobStatus (state (step e w)) = jobStatus (state w) /\
  progress (state (step e w)) = progress (state w) /\
  generatingPodcast (state (step e w)) = true.
Proof.
  intros Hr Hne Hu.
  destruct (inv_reachable w Hr) as [_ [E | (G & P & _)]]; [done|].
  destruct w as [[t c g pg ip ji js pr au] ts lg cl].
  simpl in G, P. subst g pg. clear Hne Hr.
  destruct e; try (by destruct Hu); unfold step, segment; simpl.
  - by rewrite commit_same.
  - case_bool_decide; by rewrite commit_same.
  - by rewrite commit_same.
  - by rewrite commit_same.
  - by rewrite commit_same.
Qed.

Lemma user_input_leaves_chain_witness :
  reachable Scenario.waiting /\ tasks Scenario.waiting <> [] /\
  Page.userEvent (TypeTopic []) /\
  tasks (step (TypeTopic []) Scenario.waiting) = tasks Scenario.waiting.
Proof.
  split; [exact waiting_reachable|].
  assert (H : tasks Scenario.waiting <> []) by discriminate.
  split; [exact H|]. split; [exact I|].
  exact (proj1 (user_input_leaves_chain (TypeTopic []) Scenario.waiting
                  waiting_reachable H I)).
Defined.

(** ** A failed job, and a new submission *)

(** X15: a snapshot with status "failed" is stored like any other (its
    progress is applied too) and reported by exactly one error toast
    that carries the service's error text, or "Unknown error" when the
    text is missing or empty. *)
Theorem failed_snapshot_reports_error
    (w : world) (i : nat) (j : string) (data : Wire.JobStatus) :
  reachable w -> tasks w !! i = Some (GetPending j) ->
  Wire.status data = "failed" ->
  let w' := step (GetSettles i (Response true (Some data))) w in
  log w' = (log w ++
            [ToastError
               ("Podcast generation failed: " ++
                match Wire.error data with
                | Some (String a e) => String a e
                | _ => "Unknown error"
                end)])%list /\
  errorReports (log w') = S (errorReports (log w)) /\
  jobStatus (state w') = Some data /\
  progress (state w') = (Wire.progress data * 100)%Q.
Proof.
  intros Hr Hi Hs.
  destruct (reachable_sole_task w i _ Hr Hi) as (-> & Ht & _).
  cbv zeta. rewrite (step_GetSettles w 0 j _ Hi).
  destruct w as [s ts lg cl]. simpl in Ht. subst ts.
  unfold checkStatus_resume, errorText. rewrite Hs. simpl.
  rewrite errorReports_snoc. simpl.
  repeat split; try lia.
  by destruct (Wire.error data) as [[|a e]|].
Qed.

Lemma failed_snapshot_reports_error_witness :
  reachable Scenario.polling /\
  tasks Scenario.polling !! 0 = Some (GetPending "abc123") /\
  Wire.status Page.failed = "failed" /\
  log (step (GetSettles 0 (Response true (Some Page.failed)))
         Scenario.polling)
  = (log Scenario.polling ++
     [ToastError "Podcast generation failed: tts engine unavailable"])%list.
Proof.
  split; [exact polling_reachable|].
  split; [reflexivity|]. split; [reflexivity|].
  exact (proj1 (failed_snapshot_reports_error Scenario.polling 0 "abc123"
                  Page.failed polling_reachable eq_refl eq_refl)).
Defined.

(** X16: a new submission hides the previous result at once: the
    preview shows the spinner, the play and download buttons are
    disabled and do nothing, the progress is 0 and the status text is
    "Processing...".  The previous [audioUrl] and the [isPlaying] flag
    are kept as they were. *)
Theorem resubmit_hides_previous_result (w : world) :
  reachable w -> submitDisabled (state w) = false ->
  let w1 := step ClickGenerate w in
  Page.preview (state w1) = Page.Spinner /\
  Page.resultControlsDisabled (state w1) = true /\
  Page.statusLabel (state w1) = "Processing..." /\
  progress (state w1) = 0%Q /\
  audioUrl (state w1) = audioUrl (state w) /\
  isPlaying (state w1) = isPlaying (state w) /\
  step ClickPlayPause w1 = w1 /\
  step ClickDownload w1 = w1.
Proof.
  intros Hr Hd.
  destruct (inv_reachable w Hr) as [Hc H].
  destruct w as [[t c g pg ip ji js pr au] ts lg cl]. simpl in *. subst cl.
  unfold submitDisabled in Hd. simpl in Hd.
  apply orb_false_elim in Hd as [-> Ht]. apply negb_false_iff in Ht.
  destruct H as [-> | (? & _)]; [|done].
  assert (E1 : step ClickGenerate
                 (World (UI t c false pg ip ji js pr au) [] lg None)
          = World (UI t c true false ip None None 0%Q au) [PostPending]
              (lg ++ [FetchPost t (ColorPalette.resolveHex c)]) None).
  { unfold step, segment, submitDisabled, handleGeneratePodcast. simpl.
    rewrite Ht. simpl.
    destruct ji as [j|]; [by rewrite commit_changed|by rewrite commit_same]. }
  cbv zeta. rewrite E1. repeat split; try done;
    unfold step, segment; simpl; by rewrite commit_same.
Qed.

Lemma resubmit_hides_previous_result_witness :
  reachable Page.finished /\ submitDisabled (state Page.finished) = false /\
  Page.preview (state Page.finished) = Page.Title (topic (state Page.finished)) /\
  Page.preview (state (step ClickGenerate Page.finished)) = Page.Spinner.
Proof.
  split; [exact finished_reachable|].
  split; [vm_compute; reflexivity|]. split; [vm_compute; reflexivity|].
  exact (proj1 (resubmit_hides_previous_result Page.finished finished_reachable
                  eq_refl)).
Defined.

(* ===================================================================== *)
(** * Further properties of the visualizer                                *)
(* ===================================================================== *)

Section VisualizerFacts.

Variable random : nat -> Q.

(** X17: however often [playing] is switched and however much time
    passes, at most one interval is armed: exactly one while playing,
    none otherwise.  The armed interval has period 100, fires within
    the next 100 ms, and is the one the pending cleanup will clear. *)
Theorem one_interval_while_playing (st : Waveform.state) :
  Waveform.reachable random st ->
  length (Waveform.intervals st) = (if Waveform.playing st then 1 else 0) /\
  (forall id iv, (id, iv) ∈ Waveform.intervals st ->
     Waveform.period iv = 100 /\
     1 <= Waveform.remaining iv <= 100 /\
     Waveform.cleanup st = Some id) /\
  (Waveform.intervals st = [] -> Waveform.cleanup st = None).
Proof.
  intros Hr.
  destruct (wave_inv_reachable random st Hr)
    as [_ [(Hp & Hi & Hc) | (id & r & Hp & Hi & Hc & Hb)]];
    rewrite Hp, Hi.
  - split; [done|]. split; [|done].
    intros id iv Hin. by apply elem_of_nil in Hin.
  - split; [done|]. split; [|done].
    intros id' iv Hin. apply list_elem_of_singleton in Hin.
    inversion Hin; subst. simpl. repeat split; try done; lia.
Qed.

Lemma render_container (p : bool) (st : Waveform.state) :
  Waveform.container (Waveform.render p st) = Waveform.container st.
Proof.
  unfold Waveform.render. case_bool_decide; [done|].
  unfold Waveform.effect, Waveform.runCleanup.
  destruct (Waveform.cleanup st); simpl;
    by destruct (negb (bool_decide (is_Some (Waveform.container st))) || negb p).
Qed.

Lemma drawn_height_in_range (r : Q) :
  (0 <= r)%Q -> (r < 1)%Q -> Visualizer.inRange (Some (r * 100)%Q).
Proof.
  intros H0 H1. unfold Visualizer.inRange, Waveform.shownHeight.
  destruct r as [n d]. unfold Qle, Qlt in *. simpl in *. lia.
Qed.

Lemma ms_keeps_bars_in_range (st : Waveform.state) (bars : list Waveform.bar) :
  (forall n, (0 <= random n)%Q /\ (random n < 1)%Q) ->
  Waveform.inv st ->
  Waveform.container st = Some bars -> Forall Visualizer.inRange bars ->
  exists bars',
    Waveform.container (Waveform.ms random st) = Some bars' /\
    Forall Visualizer.inRange bars'.
Proof.
  intros Hrange Hinv Hc Hb.
  destruct st as [pl ct ivs nid cl d t f]. simpl in Hc. subst ct.
  destruct Hinv as [_ [(Hpl & Hi & Hcl) | (id & r & Hpl & Hi & Hcl & Hr)]];
    simpl in Hpl, Hi, Hcl; subst.
  - exists bars. split; [by rewrite ms_idle|done].
  - destruct r as [|[|r]]; [lia| |].
    + rewrite ms_tick. eexists. split; [done|].
      apply Forall_fmap, Forall_forall. intros i _. simpl.
      destruct (Hrange (d + i)). by apply drawn_height_in_range.
    + rewrite ms_wait. by exists bars.
Qed.

(** X18: the container always holds 64 bars and every bar stays inside
    it: a bar never written shows the idle 20%, a written one shows a
    height between 0% and 100%, whatever [Math.random] returns within
    its range and whatever sequence of renders and ticks happened. *)
Theorem bars_stay_in_range (st : Waveform.state) :
  (forall n, (0 <= random n)%Q /\ (random n < 1)%Q) ->
  Waveform.reachable random st ->
  exists bars,
    Waveform.container st = Some bars /\
    length bars = 64 /\
    Forall Visualizer.inRange bars.
Proof.
  intros Hrange Hr.
  destruct (wave_inv_reachable random st Hr) as [(bars & Hc & Hl) _].
  exists bars. split; [exact Hc|]. split; [exact Hl|].
  destruct Hr as (p & evs & ->).
  assert (H : forall st0 bars0,
             Waveform.inv st0 ->
             Waveform.container st0 = Some bars0 ->
             Forall Visualizer.inRange bars0 ->
             forall bars1,
               Waveform.container (Waveform.run random evs st0) = Some bars1 ->
               Forall Visualizer.inRange bars1).
  { clear bars Hc Hl.
    induction evs as [|e evs IH]; intros st0 bars0 Hi H0 Hb bars1 H1; simpl in H1.
    - rewrite H0 in H1. by inversion H1; subst.
    - destruct e; simpl in H1.
      + apply (IH (Waveform.render p0 st0) bars0); try done.
        * by apply wave_inv_render.
        * by rewrite render_container.
      + destruct (ms_keeps_bars_in_range st0 bars0 Hrange Hi H0 Hb)
          as (bars' & Hc' & Hb').
        apply (IH (Waveform.ms random st0) bars'); try done.
        by apply wave_inv_ms. }
  apply (H (Waveform.mount p) (replicate Waveform.barCount None)).
  - apply wave_inv_mount.
  - by destruct p.
  - apply Forall_replicate. split; by vm_compute.
  - exact Hc.
Qed.

(** X19: unmounting runs the cleanup of the effect, which clears the
    interval: from then on no tick fires and [Math.random] is not
    called again, however much time passes. *)
Theorem unmount_stops_the_ticks (st : Waveform.state) (n : nat) :
  Waveform.reachable random st ->
  Waveform.intervals (Visualizer.unmount st) = [] /\
  Waveform.container (Visualizer.unmount st) = None /\
  Waveform.fired (Waveform.elapse random n (Visualizer.unmount st))
  = Waveform.fired st /\
  Waveform.draws (Waveform.elapse random n (Visualizer.unmount st))
  = Waveform.draws st.
Proof.
  intros Hr.
  assert (Hi : Waveform.intervals (Visualizer.unmount st) = [] /\
               Waveform.fired (Visualizer.unmount st) = Waveform.fired st /\
               Waveform.draws (Visualizer.unmount st) = Waveform.draws st).
  { destruct st as [pl ct ivs nid cl d t f].
    destruct (wave_inv_reachable random _ Hr)
      as [_ [(Hpl & Hi & Hcl) | (id & r & Hpl & Hi & Hcl & Hb)]];
      simpl in Hpl, Hi, Hcl; subst; [done|].
    unfold Visualizer.unmount, Waveform.runCleanup, Waveform.clearInterval.
    simpl. rewrite filter_cons, filter_nil. simpl.
    by destruct (decide (id ≠ id)). }
  destruct Hi as (Hi & Hf & Hd).
  split; [exact Hi|]. split; [done|].
  rewrite (elapse_idle random n _ Hi).
  cbn [Waveform.fired Waveform.draws]. by rewrite Hf, Hd.
Qed.

End VisualizerFacts.

Lemma toggled_reachable :
  Waveform.reachable Waveform.sampleRandom Visualizer.toggled.
Proof. by exists false, Visualizer.toggledEvents. Qed.

Lemma afterOneTick_reachable :
  Waveform.reachable Waveform.sampleRandom Visualizer.afterOneTick.
Proof. by exists true, (replicate 100 Waveform.Ms). Qed.

Lemma one_interval_while_playing_witness :
  Waveform.reachable Waveform.sampleRandom Visualizer.toggled /\
  length (Waveform.intervals Visualizer.toggled)
  = (if Waveform.playing Visualizer.toggled then 1 else 0).
Proof.
  split; [exact toggled_reachable|].
  apply (one_interval_while_playing Waveform.sampleRandom Visualizer.toggled
           toggled_reachable).
Defined.

Lemma bars_stay_in_range_witness :
  (forall n, (0 <= Waveform.sampleRandom n)%Q /\
             (Waveform.sampleRandom n < 1)%Q) /\
  Waveform.reachable Waveform.sampleRandom Visualizer.afterOneTick /\
  exists bars,
    Waveform.container Visualizer.afterOneTick = Some bars /\
    length bars = 64 /\
    Forall Visualizer.inRange bars.
Proof.
  split; [exact sampleRandom_range|].
  split; [exact afterOneTick_reachable|].
  exact (bars_stay_in_range Waveform.sampleRandom Visualizer.afterOneTick
           sampleRandom_range afterOneTick_reachable).
Defined.

Lemma unmount_stops_the_ticks_witness :
  Waveform.reachable Waveform.sampleRandom Visualizer.afterOneTick /\
  Waveform.intervals (Visualizer.unmount Visualizer.afterOneTick) = [].
Proof.
  split; [exact afterOneTick_reachable|].
  apply (unmount_stops_the_ticks Waveform.sampleRandom
           Visualizer.afterOneTick 0 afterOneTick_reachable).
Defined.

Section VisualizerCounts.

Variable random : nat -> Q.

Lemma render_draws_fired (p : bool) (st : Waveform.state) :
  Waveform.draws (Waveform.render p st) = Waveform.draws st /\
  Waveform.fired (Waveform.render p st) = Waveform.fired st.
Proof.
  unfold Waveform.render. case_bool_decide; [done|].
  unfold Waveform.effect, Waveform.runCleanup.
  destruct (Waveform.cleanup st); simpl;
    by destruct (negb (bool_decide (is_Some (Waveform.container st))) || negb p).
Qed.

Lemma ms_draws_fired (st : Waveform.state) :
  Waveform.inv st ->
  Waveform.draws st = 64 * length (Waveform.fired st) ->
  Waveform.draws (Waveform.ms random st)
  = 64 * length (Waveform.fired (Waveform.ms random st)).
Proof.
  intros Hinv Hd. destruct st as [pl ct ivs nid cl d t f].
  destruct Hinv as [(bars & Hc & Hl) [(Hpl & Hi & Hcl) | (id & r & Hpl & Hi & Hcl & Hr)]];
    cbn [Waveform.playing Waveform.container Waveform.intervals
         Waveform.cleanup Waveform.fired Waveform.draws] in *; subst.
  - by rewrite ms_idle.
  - destruct r as [|[|r]]; [lia| |by rewrite ms_wait].
    rewrite ms_tick.
    cbn [Waveform.fired Waveform.draws]. rewrite length_app, Hl.
    unfold Waveform.barCount. simpl length. lia.
Qed.

(** X20: [Math.random] is called exactly 64 times for every run of
    [updateBars], one call per bar, and never otherwise: in every state
    the number of draws is 64 times the number of ticks fired. *)
Theorem sixty_four_draws_per_tick (st : Waveform.state) :
  Waveform.reachable random st ->
  Waveform.draws st = 64 * length (Waveform.fired st).
Proof.
  intros (p & evs & ->).
  assert (H : forall st0,
             Waveform.inv st0 ->
             Waveform.draws st0 = 64 * length (Waveform.fired st0) ->
             Waveform.draws (Waveform.run random evs st0)
             = 64 * length (Waveform.fired (Waveform.run random evs st0))).
  { induction evs as [|e evs IH]; intros st0 Hi Hd; [exact Hd|].
    change (Waveform.run random (e :: evs) st0)
      with (Waveform.run random evs (Waveform.step random e st0)).
    destruct e; cbn [Waveform.step].
    - apply IH; [by apply wave_inv_render|].
      destruct (render_draws_fired p0 st0) as [-> ->]. exact Hd.
    - apply IH; [by apply wave_inv_ms|by apply ms_draws_fired]. }
  apply H; [apply wave_inv_mount|by destruct p].
Qed.

End VisualizerCounts.

Lemma sixty_four_draws_per_tick_witness :
  Waveform.reachable Waveform.sampleRandom Visualizer.afterOneTick /\
  Waveform.draws Visualizer.afterOneTick = 64 /\
  Waveform.draws Visualizer.afterOneTick
  = 64 * length (Waveform.fired Visualizer.afterOneTick).
Proof.
  split; [exact afterOneTick_reachable|].
  split; [vm_compute; reflexivity|].
  exact (sixty_four_draws_per_tick Waveform.sampleRandom
           Visualizer.afterOneTick afterOneTick_reachable).
Defined.
